(** * Streaming chat orchestration and history normalisation

    A shallow embedding of the chat backend:
    - [gemini_client.py]: [stream_chat_response], whose first loop turns
      heterogeneous history records into the provider's turn format;
    - [persistence.py]: the flat-file store of sessions and histories;
    - [main.py]: [chat_stream] and its nested [event_generator].

    Conventions of the embedding.
    - A Python [str] is a Rocq [string] whose characters are the code points
      below 256; whitespace and printability follow Python on that range.
    - Python values that can sit inside a history record are the JSON-like
      ones: [None], booleans, integers, strings, lists and string-keyed
      dictionaries.  A record is either such a value or an object given by
      its class name and its attributes.
    - An exception is a value of type [exn]; code that can raise returns
      a [result].
    - The file system is a finite map from session id to the contents of
      [history/<id>.json] together with the contents of [sessions.json].
      A file that exists but cannot be loaded is [Corrupt].  The map stands
      for the files of the ids the process itself makes ([default] and the
      text of a version 4 UUID, see [generated_id]): such ids name
      different files directly under [history/] that can be created, which
      an id holding a path separator or dots need not.
    - [event_generator] is the generator consumed to its end; [gen_next]
      and [gen_close] give it one step at a time, with the runs that the
      consumer closes at a [yield]. *)

From stdpp Require Import base option list strings gmap pretty.
From Stdlib Require Import ZArith Ascii.

(** ** Python strings *)

Module Str.

Definition code (c : ascii) : N := N_of_ascii c.

(** [str.isspace] on one code point below 256: TAB..CR, FS..US, SPACE,
    NEL and NBSP. *)
Definition isspace (c : ascii) : bool :=
  let n := code c in
  ((9 <=? n) && (n <=? 13) || (28 <=? n) && (n <=? 32) || (n =? 133) || (n =? 160))%N.

Definition is_empty (s : string) : bool :=
  match s with EmptyString => true | String _ _ => false end.

Fixpoint lstrip (s : string) : string :=
  match s with
  | EmptyString => EmptyString
  | String c r => if isspace c then lstrip r else s
  end.

Fixpoint rstrip (s : string) : string :=
  match s with
  | EmptyString => EmptyString
  | String c r =>
      let r' := rstrip r in
      if isspace c && is_empty r' then EmptyString else String c r'
  end.

(** [s.strip()] *)
Definition strip (s : string) : string := rstrip (lstrip s).

(** [s.split()]: maximal runs of non-whitespace, in order.  [word] is the
    run being read. *)
Fixpoint split_from (s word : string) : list string :=
  match s with
  | EmptyString => if is_empty word then [] else [word]
  | String c r =>
      if isspace c
      then (if is_empty word then split_from r EmptyString else word :: split_from r EmptyString)
      else split_from r (word +:+ String c EmptyString)
  end.

Definition split (s : string) : list string := split_from s EmptyString.

(** [sep.join(l)] *)
Definition join (sep : string) (l : list string) : string := String.concat sep l.

(** Some character of [s] is not whitespace. *)
Definition has_non_whitespace (s : string) : Prop :=
  ∃ c, c ∈ String.list_ascii_of_string s ∧ isspace c = false.

Definition hex_digit (n : N) : ascii :=
  ascii_of_N (if (n <? 10)%N then 48 + n else 87 + n)%N.

(** The escape of one character in [repr] of a [str] quoted by [q]. *)
Definition escape (q c : ascii) : string :=
  let n := code c in
  if (Ascii.eqb c q || Ascii.eqb c "\")%bool then String "\" (String c EmptyString)
  else if (n =? 9)%N then "\t"
  else if (n =? 10)%N then "\n"
  else if (n =? 13)%N then "\r"
  else if ((n <? 32) || (127 <=? n) && (n <=? 160) || (n =? 173))%N
       then String "\" (String "x" (String (hex_digit (n / 16)) (String (hex_digit (n mod 16)) EmptyString)))
  else String c EmptyString.

Fixpoint escape_all (q : ascii) (s : string) : string :=
  match s with
  | EmptyString => EmptyString
  | String c r => escape q c +:+ escape_all q r
  end.

Fixpoint mem (c : ascii) (s : string) : bool :=
  match s with
  | EmptyString => false
  | String d r => Ascii.eqb c d || mem c r
  end.

Definition dquote : ascii := ascii_of_N 34.

(** [repr(s)]: single quotes unless [s] holds a single quote and no
    double quote. *)
Definition repr (s : string) : string :=
  let q : ascii := if mem "'" s && negb (mem dquote s) then dquote else "'"%char in
  String q (escape_all q s) +:+ String q EmptyString.

End Str.

(** ** Python values *)

Local Set Warnings "-register-all".

Inductive PyVal : Type :=
  | VNone
  | VBool (b : bool)
  | VInt (z : Z)
  | VStr (s : string)
  | VList (l : list PyVal)
  | VDict (d : list (string * PyVal)).

(** [repr(v)] *)
Fixpoint py_repr (v : PyVal) : string :=
  match v with
  | VNone => "None"
  | VBool b => if b then "True" else "False"
  | VInt z => pretty z
  | VStr s => Str.repr s
  | VList l => "[" +:+ Str.join ", " (map py_repr l) +:+ "]"
  | VDict d =>
      "{" +:+ Str.join ", "
                (map (λ kv, match kv with (k, x) => Str.repr k +:+ ": " +:+ py_repr x end) d)
          +:+ "}"
  end.

(** [str(v)] *)
Definition py_str (v : PyVal) : string :=
  match v with
  | VStr s => s
  | _ => py_repr v
  end.

(** [bool(v)] *)
Definition truthy (v : PyVal) : bool :=
  match v with
  | VNone => false
  | VBool b => b
  | VInt z => negb (z =? 0)%Z
  | VStr s => negb (Str.is_empty s)
  | VList l => match l with [] => false | _ => true end
  | VDict d => match d with [] => false | _ => true end
  end.

(** [a or b] *)
Definition py_or (a b : PyVal) : PyVal := if truthy a then a else b.

(** First binding of [k] in an attribute table or dictionary. *)
Fixpoint assoc (k : string) (l : list (string * PyVal)) : option PyVal :=
  match l with
  | [] => None
  | (k', v) :: r => if String.eqb k k' then Some v else assoc k r
  end.

(** [d.get(k, default)] *)
Definition dict_get (d : list (string * PyVal)) (k : string) (default : PyVal) : PyVal :=
  from_option (λ v, v) default (assoc k d).

(** ** Exceptions and results *)

Inductive exn : Type :=
  | AttributeError (cls attr : string)
  | UpstreamError (description : string).

(** [str(e)] *)
Definition exn_str (e : exn) : string :=
  match e with
  | AttributeError cls attr =>
      "'" +:+ cls +:+ "' object has no attribute '" +:+ attr +:+ "'"
  | UpstreamError description => description
  end.

Inductive result (A : Type) : Type :=
  | Ok (a : A)
  | Raise (e : exn).
Arguments Ok {A} a.
Arguments Raise {A} e.

Global Instance result_ret : MRet result := λ A a, Ok a.
Global Instance result_bind : MBind result := λ A B k r,
  match r with
  | Ok a => k a
  | Raise e => Raise e
  end.

(** ** History records *)

(** What [stream_chat_response] may find in [chat_history_objects]: an
    object with a class name and attributes, or a plain value (a [dict]
    among them).  Plain values expose none of the attributes [text], [role]
    and [parts]. *)
Inductive RawMessage : Type :=
  | Obj (cls : string) (attrs : list (string * PyVal))
  | Val (v : PyVal).

Definition class_name (v : PyVal) : string :=
  match v with
  | VNone => "NoneType"
  | VBool _ => "bool"
  | VInt _ => "int"
  | VStr _ => "str"
  | VList _ => "list"
  | VDict _ => "dict"
  end.

(** [hasattr(msg, name)] *)
Definition hasattr (msg : RawMessage) (name : string) : bool :=
  match msg with
  | Obj _ attrs => bool_decide (is_Some (assoc name attrs))
  | Val _ => false
  end.

(** [msg.name] *)
Definition getattr (msg : RawMessage) (name : string) : result PyVal :=
  match msg with
  | Obj cls attrs =>
      match assoc name attrs with
      | Some v => Ok v
      | None => Raise (AttributeError cls name)
      end
  | Val v => Raise (AttributeError (class_name v) name)
  end.

(** [getattr(msg, name, default)] *)
Definition getattr_default (msg : RawMessage) (name : string) (default : PyVal) : PyVal :=
  match getattr msg name with
  | Ok v => v
  | Raise _ => default
  end.

(** One element of [formatted_history]: [{"role": ..., "parts": [...]}]. *)
Module Turn.
Record t : Type := { role : string; parts : list string }.
End Turn.

(** The detection of the three shapes: the role and the content read from
    one record. *)
Definition detect (msg : RawMessage) : result (PyVal * PyVal) :=
  if hasattr msg "text" then
    role ← getattr msg "role";
    content ← getattr msg "text";
    Ok (role, content)
  else
    match msg with
    | Val (VDict d) =>
        Ok (dict_get d "role" (VStr "user"),
            py_or (dict_get d "parts" (VStr EmptyString)) (dict_get d "text" (VStr EmptyString)))
    | _ =>
        Ok (getattr_default msg "role" (VStr "user"),
            py_or (getattr_default msg "parts" VNone)
                  (getattr_default msg "text" (VStr EmptyString)))
    end.

(** ["model" if role == "model" else "user"] *)
Definition gemini_role (role : PyVal) : string :=
  match role with
  | VStr s => if String.eqb s "model" then "model" else "user"
  | _ => "user"
  end.

(** [" ".join([str(c) for c in content])] when [content] is a list. *)
Definition ensure_str (content : PyVal) : PyVal :=
  match content with
  | VList l => VStr (Str.join " " (map py_str l))
  | _ => content
  end.

(** The body of the loop over [chat_history_objects]: the turn the record
    contributes, if any. *)
Definition format_message (msg : RawMessage) : result (option Turn.t) :=
  rc ← detect msg;
  let gemini_role := gemini_role rc.1 in
  let content := ensure_str rc.2 in
  Ok (if truthy content
      then Some {| Turn.role := gemini_role; Turn.parts := [py_str content] |}
      else None).

(** The loop, with the list [formatted_history] it appends to. *)
Fixpoint format_loop (msgs : list RawMessage) (formatted_history : list Turn.t)
  : result (list Turn.t) :=
  match msgs with
  | [] => Ok formatted_history
  | msg :: rest =>
      t ← format_message msg;
      format_loop rest (formatted_history ++ option_list t)
  end.

Definition format_history (chat_history_objects : list RawMessage) : result (list Turn.t) :=
  format_loop chat_history_objects [].

(** ** Data models ([models.py]) *)

Module Session.
Record t : Type := { id : string; title : string; created_at : Z }.
Definition with_title (s : t) (new_title : string) : t :=
  {| id := id s; title := new_title; created_at := created_at s |}.
End Session.

Module Message.
Record t : Type := { session_id : string; role : string; text : string; timestamp : Z }.
End Message.

Module Content.
Record t : Type := { parts : PyVal; role : string }.
End Content.

(** A [Message] as the object [stream_chat_response] inspects. *)
Definition message_object (m : Message.t) : RawMessage :=
  Obj "Message"
    [("session_id", VStr (Message.session_id m));
     ("role", VStr (Message.role m));
     ("text", VStr (Message.text m));
     ("timestamp", VInt (Message.timestamp m))].

(** ** The flat-file store ([persistence.py]) *)

Inductive file (A : Type) : Type :=
  | Corrupt
  | Stored (data : A).
Arguments Corrupt {A}.
Arguments Stored {A} data.

(** [sessions_json] is [None] when [sessions.json] does not exist; a session
    id outside the domain of [history_dir] has no history file. *)
Record Disk : Type := {
  sessions_json : option (file (gmap string Session.t));
  history_dir : gmap string (file (list Message.t))
}.

Definition load_all_sessions (d : Disk) : gmap string Session.t :=
  match sessions_json d with
  | Some (Stored data) => data
  | _ => ∅
  end.

Definition save_session (d : Disk) (session : Session.t) : Disk :=
  let all_sessions := <[Session.id session := session]> (load_all_sessions d) in
  {| sessions_json := Some (Stored all_sessions); history_dir := history_dir d |}.

Definition load_session_history (d : Disk) (session_id : string) : list Message.t :=
  match history_dir d !! session_id with
  | Some (Stored data) => data
  | _ => []
  end.

Definition append_message_to_session (d : Disk) (message : Message.t) : Disk :=
  let history := load_session_history d (Message.session_id message) ++ [message] in
  {| sessions_json := sessions_json d;
     history_dir := <[Message.session_id message := Stored history]> (history_dir d) |}.

Definition update_session_title (d : Disk) (session_id new_title : string) : Disk :=
  match load_all_sessions d !! session_id with
  | Some session => save_session d (Session.with_title session new_title)
  | None => d
  end.

(** ** The streaming driver ([gemini_client.py]) *)

(** What the provider sends back for one [send_message(..., stream=True)]:
    the texts of the chunks that arrive, then a normal end or a failure
    (a connection error, or a chunk whose [text] cannot be read). *)
Record Response : Type := { chunks : list string; failure : option exn }.

(** The model handle: [start_chat(history=...)] followed by
    [send_message(new_message_text, stream=True)]. *)
Definition GenerativeModel : Type := list Turn.t → string → Response.

(** An asynchronous generator of strings run to its end: the values it
    yields and the exception that ends it, if any. *)
Record Stream : Type := { yields : list string; raises : option exn }.

Definition stream_chat_response (model : option GenerativeModel)
    (new_message_text : string) (chat_history_objects : list RawMessage) : Stream :=
  match format_history chat_history_objects with
  | Raise e => {| yields := []; raises := Some e |}
  | Ok formatted_history =>
      match model with
      | None => {| yields := []; raises := Some (AttributeError "NoneType" "start_chat") |}
      | Some model =>
          let response_stream := model formatted_history new_message_text in
          {| yields := List.filter (λ text, truthy (VStr text)) (chunks response_stream);
             raises := failure response_stream |}
      end
  end.

(** ** The application ([main.py]) *)

Record GlobalState : Type := {
  sessions : gmap string Session.t;
  gemini_client : option GenerativeModel
}.

(** The process state [STATE] and the files on disk. *)
Record World : Type := { STATE : GlobalState; disk : Disk }.

Module ChatRequest.
Record t : Type := { session_id : string; message : string; history : list Content.t }.
End ChatRequest.

Record HTTPException : Type := { status_code : Z; detail : string }.

(** One dictionary yielded to [EventSourceResponse]; [event] is [None] for
    the fragments, which carry the key [data] only. *)
Record Event : Type := { event : option string; data : string }.

Definition fragment_event (chunk : string) : Event :=
  {| event := None; data := chunk |}.
Definition end_event : Event :=
  {| event := Some "end"; data := "Stream finished" |}.
Definition error_event (e : exn) : Event :=
  {| event := Some "error"; data := exn_str e |}.

Definition is_terminal (ev : Event) : bool :=
  match event ev with
  | Some name => String.eqb name "end" || String.eqb name "error"
  | None => false
  end.

Definition is_fragment (ev : Event) : bool :=
  match event ev with
  | Some _ => false
  | None => true
  end.

(** What one call takes from outside the process: the answer of the n-th
    [http_request.is_disconnected()] and the readings of [datetime.now]
    that stamp the two messages. *)
Record Env : Type := {
  is_disconnected : nat → bool;
  user_timestamp : Z;
  model_timestamp : Z
}.

(** The startup part of [lifespan]; [model] is what [init_model] gave, or
    [None] when it raised. *)
Definition lifespan (d : Disk) (model : option GenerativeModel) (now : Z) : World :=
  let loaded := load_all_sessions d in
  if decide (size loaded = 0) then
    let default_session :=
      {| Session.id := "default"; Session.title := "New Chat"; Session.created_at := now |} in
    {| STATE := {| sessions := <["default" := default_session]> loaded;
                   gemini_client := model |};
       disk := save_session d default_session |}
  else
    {| STATE := {| sessions := loaded; gemini_client := model |}; disk := d |}.

(** [create_new_session]; [uuid] and [now] are the defaults of the fields
    [id] and [created_at]. *)
Definition create_new_session (w : World) (uuid : string) (now : Z) : Session.t * World :=
  let new_session :=
    {| Session.id := uuid; Session.title := "New Chat"; Session.created_at := now |} in
  (new_session,
   {| STATE := {| sessions := <[uuid := new_session]> (sessions (STATE w));
                  gemini_client := gemini_client (STATE w) |};
      disk := save_session (disk w) new_session |}).

(** How the [async for] of [event_generator] is left. *)
Inductive Exit : Type :=
  | Exhausted
  | Break
  | Raised (e : exn).

(** The [async for] loop over the driver's stream: [poll] counts the calls
    of [is_disconnected], [full_response_text] is the accumulator.  The
    result holds the events yielded inside the loop, the accumulator and
    the way the loop is left. *)
Fixpoint async_for (is_disconnected : nat → bool) (poll : nat)
    (yields : list string) (raises : option exn) (full_response_text : string)
  : list Event * string * Exit :=
  match yields with
  | [] =>
      ([], full_response_text,
       match raises with
       | None => Exhausted
       | Some e => Raised e
       end)
  | chunk :: rest =>
      if is_disconnected poll then ([], full_response_text, Break)
      else
        let '(events, text, exit) :=
          async_for is_disconnected (S poll) rest raises (full_response_text +:+ chunk) in
        (fragment_event chunk :: events, text, exit)
  end.

(** [current_history]: the history read from the store inside the
    generator. *)
Definition current_history (w : World) (request : ChatRequest.t) : list Message.t :=
  load_session_history (disk w) (ChatRequest.session_id request).

(** The driver's stream for one call. *)
Definition driver_stream (w : World) (request : ChatRequest.t) : Stream :=
  stream_chat_response (gemini_client (STATE w)) (ChatRequest.message request)
    (message_object <$> current_history w request).

(** The [try] block of [event_generator] up to the end of the loop. *)
Definition try_block (w : World) (request : ChatRequest.t) (env : Env)
  : list Event * string * Exit :=
  let stream := driver_stream w request in
  async_for (is_disconnected env) 0 (yields stream) (raises stream) EmptyString.

(** The [finally] block. *)
Definition finally_block (w : World) (request : ChatRequest.t) (env : Env)
    (full_response_text : string) : World :=
  if truthy (VStr (Str.strip full_response_text)) then
    let ai_msg :=
      {| Message.session_id := ChatRequest.session_id request;
         Message.role := "model";
         Message.text := full_response_text;
         Message.timestamp := model_timestamp env |} in
    {| STATE := STATE w; disk := append_message_to_session (disk w) ai_msg |}
  else w.

(** [event_generator], consumed to its end: the events it yields and the
    world it leaves.  Leaving the loop by [break] or by exhaustion reaches
    the end-of-stream marker; an exception reaches the [except] clause. *)
Definition event_generator (w : World) (request : ChatRequest.t) (env : Env)
  : list Event * World :=
  let '(events, full_response_text, exit) := try_block w request env in
  let last :=
    match exit with
    | Exhausted | Break => end_event
    | Raised e => error_event e
    end in
  (events ++ [last], finally_block w request env full_response_text).

(** [chat_stream] up to its [return]: validation, the user message, the
    title. *)
Definition chat_stream_prepare (w : World) (request : ChatRequest.t) (env : Env)
  : HTTPException + World :=
  let session_id := ChatRequest.session_id request in
  match sessions (STATE w) !! session_id with
  | None => inl {| status_code := 404; detail := "Session not found" |}
  | Some current_session =>
      match gemini_client (STATE w) with
      | None => inl {| status_code := 503; detail := "Gemini client not available" |}
      | Some _ =>
          let user_msg :=
            {| Message.session_id := session_id;
               Message.role := "user";
               Message.text := ChatRequest.message request;
               Message.timestamp := user_timestamp env |} in
          let d := append_message_to_session (disk w) user_msg in
          if decide (Session.title current_session = "New Chat") then
            let new_title :=
              Str.join " " (take 5 (Str.split (ChatRequest.message request))) in
            inr {| STATE :=
                     {| sessions :=
                          <[session_id := Session.with_title current_session new_title]>
                            (sessions (STATE w));
                        gemini_client := gemini_client (STATE w) |};
                   disk := update_session_title d session_id new_title |}
          else inr {| STATE := STATE w; disk := d |}
      end
  end.

(** The endpoint with its response streamed to the end. *)
Definition chat_stream (w : World) (request : ChatRequest.t) (env : Env)
  : (HTTPException + list Event) * World :=
  match chat_stream_prepare w request env with
  | inl rejection => (inl rejection, w)
  | inr w' =>
      let '(events, w'') := event_generator w' request env in
      (inr events, w'')
  end.

(** * Vocabulary of the statements *)

(** A turn in the output form: role [user] or [model] and one part that is
    a string with at least one character. *)
Definition canonical (t : Turn.t) : Prop :=
  (Turn.role t = "user" ∨ Turn.role t = "model")
  ∧ ∃ text, Turn.parts t = [text] ∧ text ≠ EmptyString.

(** An output turn read back as the dictionary the loop built. *)
Definition turn_dict (t : Turn.t) : RawMessage :=
  Val (VDict [("role", VStr (Turn.role t)); ("parts", VList (VStr <$> Turn.parts t))]).

(** The same turn as a structured record and as a mapping with a [text]
    key. *)
Definition turn_record (t : Turn.t) : RawMessage :=
  Obj "Message"
    [("role", VStr (Turn.role t)); ("text", VStr (Str.join " " (Turn.parts t)))].

Definition turn_text_dict (t : Turn.t) : RawMessage :=
  Val (VDict [("role", VStr (Turn.role t)); ("text", VStr (Str.join " " (Turn.parts t)))]).

(** The shapes the loop is written for: an object that exposes [text] also
    exposes [role] (the structured record); every object without [text]
    (the bare-attribute shape) and every plain value (mappings among them)
    qualifies. *)
Definition described (msg : RawMessage) : Prop :=
  match msg with
  | Obj _ attrs => is_Some (assoc "text" attrs) → is_Some (assoc "role" attrs)
  | Val _ => True
  end.

(** The turn a stored [Message] contributes. *)
Definition turn_of_message (m : Message.t) : option Turn.t :=
  if Str.is_empty (Message.text m) then None
  else Some {| Turn.role := if String.eqb (Message.role m) "model" then "model" else "user";
               Turn.parts := [Message.text m] |}.

(** ** Sample inputs *)

(** The two records of the documented example, as mappings and as
    objects. *)
Definition example_mappings : list RawMessage :=
  [Val (VDict [("role", VStr "model"); ("text", VStr "hi")]);
   Val (VDict [("role", VStr "bob"); ("parts", VList [VStr "a"; VStr "b"])])].

Definition example_objects : list RawMessage :=
  [Obj "Message" [("role", VStr "model"); ("text", VStr "hi")];
   Obj "Content" [("parts", VList [VStr "a"; VStr "b"]); ("role", VStr "bob")]].

Definition example_turns : list Turn.t :=
  [{| Turn.role := "model"; Turn.parts := ["hi"] |};
   {| Turn.role := "user"; Turn.parts := ["a b"] |}].

(** An object that exposes [text] and nothing else. *)
Definition text_only_object : RawMessage := Obj "Note" [("text", VStr "hi")].

(** One record of each shape, and values of no shape at all. *)
Definition mixed_records : list RawMessage :=
  [Obj "Message" [("role", VStr "model"); ("text", VStr "hi")];
   Val (VDict [("parts", VList [VInt 1; VNone; VStr "x"])]);
   Obj "Content" [("parts", VStr "p")];
   Val (VInt 7);
   Val (VDict [("role", VStr "model"); ("text", VStr EmptyString)]);
   Obj "Empty" []].

(** The concatenation of the fragments, in order: what [+=] has built
    after the loop. *)
Definition concat_text (fragments : list string) : string :=
  foldr String.append EmptyString fragments.

(** The event that follows the loop. *)
Definition closing_event (exit : Exit) : Event :=
  match exit with
  | Exhausted | Break => end_event
  | Raised e => error_event e
  end.

Definition user_message (request : ChatRequest.t) (env : Env) : Message.t :=
  {| Message.session_id := ChatRequest.session_id request;
     Message.role := "user";
     Message.text := ChatRequest.message request;
     Message.timestamp := user_timestamp env |}.

Definition model_message (request : ChatRequest.t) (env : Env) (text : string) : Message.t :=
  {| Message.session_id := ChatRequest.session_id request;
     Message.role := "model";
     Message.text := text;
     Message.timestamp := model_timestamp env |}.

Definition derived_title (message : string) : string :=
  Str.join " " (take 5 (Str.split message)).

(** The index on disk lists every session of the process under its own
    id. *)
Definition index_synced (w : World) : Prop :=
  ∀ session_id session,
    sessions (STATE w) !! session_id = Some session →
    Session.id session = session_id
    ∧ load_all_sessions (disk w) !! session_id = Some session.

(** A provider that answers every call with the same chunks and the same
    ending. *)
Definition scripted (texts : list string) (ending : option exn) : GenerativeModel :=
  λ _ _, {| chunks := texts; failure := ending |}.

(** A provider that answers with the number of turns it was seeded with
    and the text it was sent. *)
Definition echo : GenerativeModel :=
  λ history text, {| chunks := [pretty (length history); text]; failure := None |}.

Definition new_chat : Session.t :=
  {| Session.id := "s1"; Session.title := "New Chat"; Session.created_at := 0 |}.

Definition sample_disk : Disk :=
  {| sessions_json := Some (Stored {["s1" := new_chat]}); history_dir := ∅ |}.

Definition sample_world (model : option GenerativeModel) : World :=
  {| STATE := {| sessions := {["s1" := new_chat]}; gemini_client := model |};
     disk := sample_disk |}.

Definition sample_request (message : string) (history : list Content.t) : ChatRequest.t :=
  {| ChatRequest.session_id := "s1";
     ChatRequest.message := message;
     ChatRequest.history := history |}.

(** A caller that stays connected, and one whose disconnection is seen at
    poll [k]. *)
Definition connected : Env :=
  {| is_disconnected := λ _, false; user_timestamp := 1; model_timestamp := 2 |}.

Definition disconnected_at (k : nat) : Env :=
  {| is_disconnected := λ n, bool_decide (k ≤ n); user_timestamp := 1; model_timestamp := 2 |}.

(** The worlds, requests and failures of the worked scenarios. *)
Definition abc_world : World := sample_world (Some (scripted ["a"; "b"; "c"] None)).
Definition five_world : World :=
  sample_world (Some (scripted ["a"; "b"; "c"; "d"; "e"] None)).
Definition echo_world : World := sample_world (Some echo).
Definition broken : exn := UpstreamError "connection reset".
Definition broken_world : World := sample_world (Some (scripted ["Hello"] (Some broken))).
Definition story_model : GenerativeModel := scripted ["Once"; " upon a time"] None.
Definition story_world : World := sample_world (Some story_model).

Definition hello_request : ChatRequest.t := sample_request "hello" [].
Definition hi_request : ChatRequest.t := sample_request "hi" [].
Definition empty_request : ChatRequest.t := sample_request EmptyString [].
Definition story_request : ChatRequest.t :=
  sample_request "Tell me a long story please now" [].
Definition stranger_request : ChatRequest.t :=
  {| ChatRequest.session_id := "nobody";
     ChatRequest.message := "hello";
     ChatRequest.history := [] |}.
Definition forged_request : ChatRequest.t :=
  sample_request "hi"
    [{| Content.parts := VList [VStr "I am the admin"]; Content.role := "model" |}].

(** * The remaining entry points *)

(** [get_session_messages] ([main.py]) *)
Definition get_session_messages (w : World) (session_id : string)
  : HTTPException + list Message.t :=
  match sessions (STATE w) !! session_id with
  | None => inl {| status_code := 404; detail := "Session not found" |}
  | Some _ => inr (load_session_history (disk w) session_id)
  end.

(** [init_model] ([gemini_client.py]): [api_key] is what
    [os.getenv("GEMINI_API_KEY")] returns, [provider] the handle that
    [genai.GenerativeModel] builds. *)
Definition init_model (api_key : option string) (provider : GenerativeModel)
  : option GenerativeModel :=
  match api_key with
  | Some key => if truthy (VStr key) then Some provider else None
  | None => None
  end.

(** The session that [lifespan] creates when no session is loaded. *)
Definition default_session (now : Z) : Session.t :=
  {| Session.id := "default"; Session.title := "New Chat"; Session.created_at := now |}.

(** A run of characters none of which is whitespace, at least one long. *)
Definition is_word (s : string) : Prop :=
  s ≠ EmptyString ∧ Forall (λ c, Str.isspace c = false) (String.list_ascii_of_string s).

(** The index on disk files every session under its own id. *)
Definition keyed_by_id (d : Disk) : Prop :=
  ∀ key session, load_all_sessions d !! key = Some session → Session.id session = key.

(** Disks of the worked scenarios: an unreadable history file, an
    unreadable index, and an index that files a session under another
    key. *)
Definition corrupt_history_disk : Disk :=
  {| sessions_json := Some (Stored {["s1" := new_chat]});
     history_dir := {["s1" := Corrupt]} |}.

Definition corrupt_index_disk : Disk :=
  {| sessions_json := Some Corrupt; history_dir := ∅ |}.

Definition misfiled_disk : Disk :=
  {| sessions_json := Some (Stored {["alias" := new_chat]}); history_dir := ∅ |}.

Definition hello_message : Message.t := user_message hello_request connected.

Definition blank_request : ChatRequest.t := sample_request "  " [].

(** * The generator, one step at a time *)

(** Where the generator of one call is suspended: before its first
    statement, at the [yield] of a fragment (with the number of polls made,
    what is left of the driver's stream and the accumulator), at the
    [yield] of the closing event, or after its end. *)
Inductive Suspended : Type :=
  | NotStarted
  | AtFragment (poll : nat) (rest : list string) (raises : option exn)
      (full_response_text : string)
  | AtClosing (full_response_text : string)
  | Finished.

(** From the head of the [async for] to the next [yield]: the next
    fragment, or the end-of-stream marker after exhaustion or [break], or
    the [error] event of the [except] clause. *)
Definition to_next_yield (env : Env) (poll : nat) (rest : list string)
    (raises : option exn) (full_response_text : string) : Event * Suspended :=
  match rest with
  | [] =>
      (match raises with
       | None => end_event
       | Some e => error_event e
       end,
       AtClosing full_response_text)
  | chunk :: rest' =>
      if is_disconnected env poll then (end_event, AtClosing full_response_text)
      else (fragment_event chunk,
            AtFragment (S poll) rest' raises (full_response_text +:+ chunk))
  end.

(** [__anext__]: the generator runs to its next [yield], or through its
    [finally] block to its end. *)
Definition gen_next (w : World) (request : ChatRequest.t) (env : Env) (s : Suspended)
  : option Event * Suspended * World :=
  match s with
  | NotStarted =>
      let stream := driver_stream w request in
      let '(ev, s') := to_next_yield env 0 (yields stream) (raises stream) EmptyString in
      (Some ev, s', w)
  | AtFragment poll rest raises full_response_text =>
      let '(ev, s') := to_next_yield env poll rest raises full_response_text in
      (Some ev, s', w)
  | AtClosing full_response_text =>
      (None, Finished, finally_block w request env full_response_text)
  | Finished => (None, Finished, w)
  end.

(** [aclose], or the cancellation of the task that consumes the
    generator: [GeneratorExit] (or [CancelledError]) is raised at the
    [yield] where the generator is suspended; [except Exception] does not
    catch it, the [finally] block runs, nothing more is yielded.  A
    generator that has not started runs nothing.  A cancellation that
    arrives while the generator awaits [is_disconnected] leaves the same
    events and the same accumulator as closing at the [yield] before. *)
Definition gen_close (w : World) (request : ChatRequest.t) (env : Env) (s : Suspended)
  : World :=
  match s with
  | NotStarted | Finished => w
  | AtFragment _ _ _ full_response_text | AtClosing full_response_text =>
      finally_block w request env full_response_text
  end.

(** The consumer asks for the next value up to [n] times. *)
Fixpoint consume (n : nat) (w : World) (request : ChatRequest.t) (env : Env)
    (s : Suspended) : list Event * Suspended * World :=
  match n with
  | 0 => ([], s, w)
  | S n' =>
      match gen_next w request env s with
      | (Some ev, s', w') =>
          let '(events, s'', w'') := consume n' w' request env s' in
          (ev :: events, s'', w'')
      | (None, s', w') => ([], s', w')
      end
  end.

(** A run that the consumer closes after asking [n] times: the events it
    received and the world the generator leaves. *)
Definition closed_run (n : nat) (w : World) (request : ChatRequest.t) (env : Env)
  : list Event * World :=
  let '(events, s, w') := consume n w request env NotStarted in
  (events, gen_close w' request env s).

(** * Session ids made by the process *)

Definition uuid_char (c : ascii) : bool :=
  let n := Str.code c in
  ((48 <=? n) && (n <=? 57) || (97 <=? n) && (n <=? 102) || (n =? 45))%N.

(** The ids the code itself gives to sessions: [default] ([lifespan]) and
    [str(uuid.uuid4())] (the default of [Session.id]), 36 characters that
    are lower-case hexadecimal digits or hyphens. *)
Definition generated_id (session_id : string) : Prop :=
  session_id = "default"
  ∨ (String.length session_id = 36
     ∧ Forall (λ c, uuid_char c = true) (String.list_ascii_of_string session_id)).

Definition sample_uuid : string := "123e4567-e89b-42d3-a456-426614174000".

Definition default_message : Message.t :=
  {| Message.session_id := "default"; Message.role := "user";
     Message.text := "hi"; Message.timestamp := 1 |}.

Definition uuid_message : Message.t :=
  {| Message.session_id := sample_uuid; Message.role := "user";
     Message.text := "yo"; Message.timestamp := 2 |}.

Definition corrupt_default_disk : Disk :=
  {| sessions_json := None; history_dir := {["default" := Corrupt]} |}.

(** * Properties *)

(** ** Strings *)

Section strings.

Lemma str_app_cons (c : ascii) (s t : string) : String c s +:+ t = String c (s +:+ t).
Proof. reflexivity. Qed.

Lemma str_app_empty_l (s : string) : EmptyString +:+ s = s.
Proof. reflexivity. Qed.

Lemma str_app_empty_r (s : string) : s +:+ EmptyString = s.
Proof. induction s as [|c s IH]; [done | by rewrite str_app_cons, IH]. Qed.

Lemma str_app_assoc (a b c : string) : (a +:+ b) +:+ c = a +:+ (b +:+ c).
Proof. induction a as [|x a IH]; [done | by rewrite !str_app_cons, IH]. Qed.

Lemma is_empty_true (s : string) : Str.is_empty s = true ↔ s = EmptyString.
Proof. destruct s; simpl; split; congruence. Qed.

Lemma is_empty_false (s : string) : Str.is_empty s = false ↔ s ≠ EmptyString.
Proof. destruct s; simpl; split; congruence. Qed.

Lemma has_non_whitespace_cons (c : ascii) (s : string) :
  Str.has_non_whitespace (String c s) ↔ Str.isspace c = false ∨ Str.has_non_whitespace s.
Proof.
  unfold Str.has_non_whitespace; simpl. split.
  - intros (x & Hx & Hsp). apply elem_of_cons in Hx as [->|Hx]; [by left | right; eauto].
  - intros [Hc | (x & Hx & Hsp)].
    + exists c. split; [apply elem_of_cons; by left | done].
    + exists x. split; [apply elem_of_cons; by right | done].
Qed.

Lemma has_non_whitespace_empty : ¬ Str.has_non_whitespace EmptyString.
Proof. intros (x & Hx & _). simpl in Hx. by apply elem_of_nil in Hx. Qed.

(** [lstrip] either consumes a string of whitespace entirely or stops at
    its first character that is not whitespace. *)
Lemma lstrip_cases (s : string) :
  (Str.lstrip s = EmptyString ∧ ¬ Str.has_non_whitespace s)
  ∨ (∃ c r, Str.lstrip s = String c r ∧ Str.isspace c = false ∧ Str.has_non_whitespace s).
Proof.
  induction s as [|c s IH]; simpl.
  - left. split; [done | apply has_non_whitespace_empty].
  - destruct (Str.isspace c) eqn:Hc.
    + destruct IH as [[-> Hn] | (c' & r & -> & Hc' & Hs)].
      * left. split; [done|]. rewrite has_non_whitespace_cons. intros [?|?]; [congruence | done].
      * right. exists c', r. split_and!; [done..|]. apply has_non_whitespace_cons. by right.
    + right. exists c, s. split_and!; [done..|]. apply has_non_whitespace_cons. by left.
Qed.

Lemma rstrip_keeps_head (c : ascii) (r : string) :
  Str.isspace c = false → Str.rstrip (String c r) = String c (Str.rstrip r).
Proof. intros Hc. simpl. by rewrite Hc. Qed.

(** [full_response_text.strip()] is truthy exactly when the text holds a
    character that is not whitespace. *)
Lemma strip_truthy (s : string) :
  truthy (VStr (Str.strip s)) = true ↔ Str.has_non_whitespace s.
Proof.
  unfold Str.strip. simpl.
  destruct (lstrip_cases s) as [[-> Hn] | (c & r & -> & Hc & Hs)].
  - simpl. split; [done | by intros ?%Hn].
  - rewrite rstrip_keeps_head by done. simpl. split; done.
Qed.


End strings.

(** ** The normalisation loop *)

Section normalisation.

Lemma pretty_N_go_nonempty (x : N) (s : string) :
  s ≠ EmptyString → pretty_N_go x s ≠ EmptyString.
Proof.
  revert s. induction (N.lt_wf_0 x) as [x _ IH]. intros s Hs.
  destruct (decide (x = 0)%N) as [->|Hx].
  - by rewrite pretty_N_go_0.
  - rewrite pretty_N_go_step by lia. apply IH; [|done].
    apply N.div_lt; lia.
Qed.

Lemma pretty_Z_nonempty (z : Z) : pretty z ≠ EmptyString.
Proof.
  destruct z as [|p|p]; unfold pretty, pretty_Z; [done| |done].
  unfold pretty, pretty_positive, pretty, pretty_N.
  destruct (decide _) as [|_]; [done|].
  rewrite pretty_N_go_step by lia. by apply pretty_N_go_nonempty.
Qed.

(** [str] of a truthy value that is not a list has at least one
    character. *)
Lemma py_str_truthy_nonempty (v : PyVal) :
  truthy v = true → (∀ l, v ≠ VList l) → py_str v ≠ EmptyString.
Proof.
  destruct v as [|b|z|s|l|d]; simpl; intros Ht Hl; try done.
  - by destruct b.
  - apply pretty_Z_nonempty.
  - by destruct s.
Qed.

Lemma ensure_str_not_list (content : PyVal) (l : list PyVal) : ensure_str content ≠ VList l.
Proof. by destruct content. Qed.

Lemma gemini_role_cases (r : PyVal) : gemini_role r = "user" ∨ gemini_role r = "model".
Proof.
  destruct r; simpl; auto. destruct (String.eqb _ _); auto.
Qed.

(** The accumulator of the loop is only ever extended at its end. *)
Lemma format_loop_acc (msgs : list RawMessage) (acc : list Turn.t) :
  format_loop msgs acc = ts ← format_loop msgs []; Ok (acc ++ ts).
Proof.
  revert acc. induction msgs as [|msg rest IH]; intros acc; simpl.
  - by rewrite app_nil_r.
  - destruct (format_message msg) as [t|e]; simpl; [|done].
    rewrite (IH (acc ++ option_list t)), (IH (option_list t)).
    destruct (format_loop rest []) as [ts|e]; simpl; [|done].
    by rewrite app_assoc.
Qed.

Lemma format_history_nil : format_history [] = Ok [].
Proof. reflexivity. Qed.

Lemma format_history_cons (msg : RawMessage) (rest : list RawMessage) :
  format_history (msg :: rest)
  = t ← format_message msg; ts ← format_history rest; Ok (option_list t ++ ts).
Proof.
  unfold format_history; simpl.
  destruct (format_message msg) as [t|e]; simpl; [|done].
  apply format_loop_acc.
Qed.

Lemma format_history_app (xs ys : list RawMessage) :
  format_history (xs ++ ys)
  = a ← format_history xs; b ← format_history ys; Ok (a ++ b).
Proof.
  induction xs as [|x xs IH]; simpl.
  - change (format_history []) with (Ok (@nil Turn.t)). simpl.
    by destruct (format_history ys).
  - rewrite !format_history_cons, IH.
    destruct (format_message x) as [t|e]; simpl; [|done].
    destruct (format_history xs) as [a|e]; simpl; [|done].
    destruct (format_history ys) as [b|e]; simpl; [|done].
    by rewrite app_assoc.
Qed.

(** Whatever a record contributes is in the output form. *)
Lemma format_message_canonical (msg : RawMessage) (t : Turn.t) :
  format_message msg = Ok (Some t) → canonical t.
Proof.
  unfold format_message. destruct (detect msg) as [[r c]|e]; simpl; [|done].
  destruct (truthy (ensure_str c)) eqn:Ht; [|done].
  intros [= <-]. split; simpl.
  - apply gemini_role_cases.
  - eexists. split; [done|].
    apply py_str_truthy_nonempty; [done | apply ensure_str_not_list].
Qed.

Lemma format_history_canonical (msgs : list RawMessage) (ts : list Turn.t) :
  format_history msgs = Ok ts → Forall canonical ts.
Proof.
  revert ts. induction msgs as [|msg rest IH]; intros ts.
  - intros [= <-]. constructor.
  - rewrite format_history_cons.
    destruct (format_message msg) as [t|e] eqn:Hm; simpl; [|done].
    destruct (format_history rest) as [ts'|e]; simpl; [|done].
    intros [= <-]. apply Forall_app. split; [|by apply IH].
    destruct t as [t|]; simpl; [|constructor].
    constructor; [by eapply format_message_canonical | constructor].
Qed.

(** Detection raises only on an object that exposes [text] without
    [role]. *)
Lemma detect_described (msg : RawMessage) :
  described msg → ∃ rc, detect msg = Ok rc.
Proof.
  destruct msg as [cls attrs|v]; unfold detect; simpl.
  - intros Hd. case_bool_decide as Htext.
    + destruct (Hd Htext) as [r Hr]. destruct Htext as [c Hc].
      rewrite Hr, Hc. simpl. eauto.
    + eauto.
  - intros _. destruct v; eauto.
Qed.

Lemma format_message_described (msg : RawMessage) :
  described msg → ∃ o, format_message msg = Ok o.
Proof.
  intros [rc Hrc]%detect_described. unfold format_message. rewrite Hrc. simpl. eauto.
Qed.

Lemma format_history_described (msgs : list RawMessage) :
  Forall described msgs → ∃ ts, format_history msgs = Ok ts.
Proof.
  induction 1 as [|msg rest Hd _ [ts IH]].
  - by exists [].
  - destruct (format_message_described msg Hd) as [o Ho].
    exists (option_list o ++ ts). by rewrite format_history_cons, Ho, IH.
Qed.

(** A stored [Message] always goes through the first branch. *)
Lemma format_message_object (m : Message.t) :
  format_message (message_object m) = Ok (turn_of_message m).
Proof.
  destruct m as [sid r t ts]. unfold turn_of_message; simpl.
  unfold format_message, detect; simpl.
  by destruct t.
Qed.

Lemma format_history_objects (ms : list Message.t) :
  format_history (message_object <$> ms) = Ok (omap turn_of_message ms).
Proof.
  induction ms as [|m ms IH]; [done|].
  rewrite fmap_cons, format_history_cons, format_message_object, IH. simpl.
  by destruct (turn_of_message m).
Qed.

End normalisation.

Section normalisation_claims.

(** C6.  The documented example: normalising
    [{role: model, text: hi}, {role: bob, parts: [a, b]}] gives
    [{role: model, hi}, {role: user, a b}], whether the records are
    mappings or objects.  In general the role [model] is kept and every
    other role becomes [user], a list is replaced by the [str] of its
    elements joined with single spaces, and the output of a concatenation
    is the concatenation of the outputs, in the same order. *)
Theorem normalize_documented_example :
  format_history example_mappings = Ok example_turns
  ∧ format_history example_objects = Ok example_turns
  ∧ gemini_role (VStr "model") = "model"
  ∧ (∀ r, r ≠ VStr "model" → gemini_role r = "user")
  ∧ (∀ l, ensure_str (VList l) = VStr (Str.join " " (py_str <$> l)))
  ∧ (∀ xs ys a b,
       format_history xs = Ok a → format_history ys = Ok b →
       format_history (xs ++ ys) = Ok (a ++ b)).
Proof.
  split_and!; try reflexivity.
  - intros r Hr. destruct r as [| | |s| |]; try reflexivity. simpl.
    destruct (String.eqb_spec s "model") as [->|]; [by destruct Hr | done].
  - intros xs ys a b Ha Hb. by rewrite format_history_app, Ha, Hb.
Qed.

Lemma normalize_documented_example_witness :
  gemini_role (VStr "bob") = "user"
  ∧ format_history (example_mappings ++ example_objects)
    = Ok (example_turns ++ example_turns).
Proof.
  destruct normalize_documented_example as (Hm & Ho & _ & Hrole & _ & Happ).
  split; [by apply Hrole | by apply Happ].
Defined.

Lemma format_message_turn_dict (t : Turn.t) :
  canonical t → format_message (turn_dict t) = Ok (Some t).
Proof.
  destruct t as [r p]. intros [Hrole (text & Hparts & Hne)]; simpl in *. subst p.
  destruct text as [|c text]; [done|].
  by destruct Hrole as [-> | ->].
Qed.

Lemma format_message_turn_record (t : Turn.t) :
  canonical t → format_message (turn_record t) = Ok (Some t).
Proof.
  destruct t as [r p]. intros [Hrole (text & Hparts & Hne)]; simpl in *. subst p.
  destruct text as [|c text]; [done|].
  by destruct Hrole as [-> | ->].
Qed.

Lemma format_message_turn_text_dict (t : Turn.t) :
  canonical t → format_message (turn_text_dict t) = Ok (Some t).
Proof.
  destruct t as [r p]. intros [Hrole (text & Hparts & Hne)]; simpl in *. subst p.
  destruct text as [|c text]; [done|].
  by destruct Hrole as [-> | ->].
Qed.

Lemma format_history_fixed (embed : Turn.t → RawMessage) (ts : list Turn.t) :
  (∀ t, canonical t → format_message (embed t) = Ok (Some t)) →
  Forall canonical ts → format_history (embed <$> ts) = Ok ts.
Proof.
  intros Hembed. induction 1 as [|t ts Ht _ IH]; [done|].
  by rewrite fmap_cons, format_history_cons, (Hembed t Ht), IH.
Qed.

(** C8.  Normalisation is idempotent: a sequence already in the output
    form (every role [user] or [model], every content one string with at
    least one character) is returned as it is, whether its turns are
    presented as the dictionaries the loop builds, as structured records
    or as mappings with a [text] key. *)
Theorem normalize_idempotent (ts : list Turn.t) :
  Forall canonical ts →
  format_history (turn_dict <$> ts) = Ok ts
  ∧ format_history (turn_record <$> ts) = Ok ts
  ∧ format_history (turn_text_dict <$> ts) = Ok ts.
Proof.
  intros Hts. split_and!; apply format_history_fixed; try done.
  - apply format_message_turn_dict.
  - apply format_message_turn_record.
  - apply format_message_turn_text_dict.
Qed.

Lemma normalize_idempotent_witness :
  Forall canonical example_turns
  ∧ format_history (turn_dict <$> example_turns) = Ok example_turns.
Proof.
  assert (Forall canonical example_turns) as H.
  { repeat apply List.Forall_cons; try apply List.Forall_nil;
      (split; simpl; [auto | eexists; split; [reflexivity | discriminate]]). }
  split; [exact H | exact (proj1 (normalize_idempotent example_turns H))].
Defined.

(** Normalising the output of a normalisation changes nothing. *)
Corollary normalize_twice (msgs : list RawMessage) (ts : list Turn.t) :
  format_history msgs = Ok ts → format_history (turn_dict <$> ts) = Ok ts.
Proof.
  intros H%format_history_canonical.
  apply format_history_fixed; [apply format_message_turn_dict | done].
Qed.

(** C3, as the claim states it, fails: an object that exposes [text] but
    not [role] is of none of the described shapes, and the loop raises on
    it instead of falling back to the role [user]. *)
Lemma text_without_role_raises :
  format_history [text_only_object] = Raise (AttributeError "Note" "role")
  ∧ ¬ (∀ msgs, ∃ ts, format_history msgs = Ok ts).
Proof.
  split; [reflexivity|].
  intros H. destruct (H [text_only_object]) as [ts Hts]. discriminate Hts.
Qed.

(** C3, amended.  On the shapes the loop is written for (an object with
    both [text] and [role], any mapping, any object without [text]) and on
    plain values, normalisation never raises and yields turns in the
    output form only; a record without a role gets the role [user]; a
    plain value that is not a mapping, and any record whose content is
    falsy after extraction, is dropped. *)
Theorem normalize_total_on_described (msgs : list RawMessage) :
  Forall described msgs →
  (∃ ts, format_history msgs = Ok ts ∧ Forall canonical ts
         ∧ length ts ≤ length msgs)
  ∧ (∀ cls attrs t,
       assoc "text" attrs = None → assoc "role" attrs = None →
       format_message (Obj cls attrs) = Ok (Some t) → Turn.role t = "user")
  ∧ (∀ d t,
       assoc "role" d = None →
       format_message (Val (VDict d)) = Ok (Some t) → Turn.role t = "user")
  ∧ (∀ v, (∀ d, v ≠ VDict d) → format_message (Val v) = Ok None)
  ∧ (∀ msg r c,
       detect msg = Ok (r, c) → truthy (ensure_str c) = false →
       format_message msg = Ok None).
Proof.
  intros Hd. split_and!.
  - destruct (format_history_described msgs Hd) as [ts Hts].
    exists ts. split_and!; [done | by eapply format_history_canonical |].
    clear Hd. revert ts Hts. induction msgs as [|msg rest IH]; intros ts.
    + by intros [= <-].
    + rewrite format_history_cons.
      destruct (format_message msg) as [o|e]; simpl; [|done].
      destruct (format_history rest) as [ts'|e]; simpl; [|done].
      intros [= <-]. rewrite length_app. specialize (IH ts' eq_refl).
      destruct o; simpl; lia.
  - intros cls attrs t Htext Hrole. unfold format_message, detect. simpl.
    rewrite bool_decide_eq_false_2 by (rewrite Htext; by intros []).
    unfold getattr_default. simpl. rewrite Hrole. simpl.
    destruct (truthy _); [|done]. by intros [= <-].
  - intros d t Hrole. unfold format_message, detect. simpl.
    unfold dict_get at 3. rewrite Hrole. simpl.
    destruct (truthy _); [|done]. by intros [= <-].
  - intros v Hv. destruct v; try done. by destruct (Hv d).
  - intros msg r c Hdet Hfalsy. unfold format_message. rewrite Hdet. simpl.
    by rewrite Hfalsy.
Qed.

Lemma normalize_total_on_described_witness :
  Forall described mixed_records
  ∧ ∃ ts, format_history mixed_records = Ok ts ∧ Forall canonical ts
          ∧ length ts ≤ length mixed_records.
Proof.
  assert (Forall described mixed_records) as H.
  { repeat apply List.Forall_cons; try apply List.Forall_nil; simpl; try exact I;
      intros [v Hv]; try discriminate Hv; eauto. }
  split; [exact H | exact (proj1 (normalize_total_on_described mixed_records H))].
Defined.

End normalisation_claims.

(** ** The store *)

Section store.

Lemma load_after_append (d : Disk) (message : Message.t) :
  load_session_history (append_message_to_session d message) (Message.session_id message)
  = load_session_history d (Message.session_id message) ++ [message].
Proof.
  unfold load_session_history at 1, append_message_to_session; simpl.
  by rewrite lookup_insert_eq.
Qed.

Lemma load_after_append_other (d : Disk) (message : Message.t) (session_id : string) :
  session_id ≠ Message.session_id message →
  load_session_history (append_message_to_session d message) session_id
  = load_session_history d session_id.
Proof.
  intros Hne. unfold load_session_history, append_message_to_session; simpl.
  by rewrite lookup_insert_ne.
Qed.

Lemma index_after_append (d : Disk) (message : Message.t) :
  sessions_json (append_message_to_session d message) = sessions_json d.
Proof. reflexivity. Qed.

Lemma history_after_save (d : Disk) (session : Session.t) :
  history_dir (save_session d session) = history_dir d.
Proof. reflexivity. Qed.

Lemma history_after_title (d : Disk) (session_id new_title : string) :
  history_dir (update_session_title d session_id new_title) = history_dir d.
Proof.
  unfold update_session_title. by destruct (load_all_sessions d !! session_id).
Qed.

Lemma load_after_title (d : Disk) (session_id new_title other : string) :
  load_session_history (update_session_title d session_id new_title) other
  = load_session_history d other.
Proof. unfold load_session_history. by rewrite history_after_title. Qed.

Lemma index_after_save (d : Disk) (session : Session.t) :
  load_all_sessions (save_session d session)
  = <[Session.id session := session]> (load_all_sessions d).
Proof. reflexivity. Qed.

(** The title reaches the index when the index lists the session under
    its own id, and only then. *)
Lemma index_after_title (d : Disk) (session_id new_title : string) (stored : Session.t) :
  load_all_sessions d !! session_id = Some stored →
  Session.id stored = session_id →
  load_all_sessions (update_session_title d session_id new_title)
  = <[session_id := Session.with_title stored new_title]> (load_all_sessions d).
Proof.
  intros Hs Hid. unfold update_session_title. rewrite Hs, index_after_save.
  simpl. by rewrite Hid.
Qed.

Lemma index_after_title_unlisted (d : Disk) (session_id new_title : string) :
  load_all_sessions d !! session_id = None →
  update_session_title d session_id new_title = d.
Proof. intros Hs. unfold update_session_title. by rewrite Hs. Qed.

End store.

(** ** The relay loop *)

Section relay.

Context (is_disconnected : nat → bool).

Lemma concat_text_app (xs ys : list string) :
  concat_text (xs ++ ys) = concat_text xs +:+ concat_text ys.
Proof.
  induction xs as [|x xs IH]; [done|].
  simpl. by rewrite IH, str_app_assoc.
Qed.

(** The loop never yields anything but fragments, and the accumulator is
    the concatenation of what it yielded. *)
Lemma async_for_relayed (yields : list string) (raises : option exn) :
  ∀ poll acc events text exit,
    async_for is_disconnected poll yields raises acc = (events, text, exit) →
    text = acc +:+ concat_text (data <$> events)
    ∧ Forall (λ ev, is_fragment ev = true ∧ is_terminal ev = false) events
    ∧ (data <$> events) `prefix_of` yields.
Proof.
  induction yields as [|chunk rest IH]; intros poll acc events text exit; simpl.
  - intros [= <- <- <-]. simpl. rewrite str_app_empty_r. split_and!; [done | constructor | done].
  - destruct (is_disconnected poll).
    + intros [= <- <- <-]. simpl. rewrite str_app_empty_r.
      split_and!; [done | constructor | apply prefix_nil].
    + destruct (async_for _ _ _ _ _) as [[evs txt] ex] eqn:Hrec.
      intros [= <- <- <-]. destruct (IH _ _ _ _ _ Hrec) as (-> & Hfrag & Hpre).
      simpl. split_and!.
      * by rewrite str_app_assoc.
      * by constructor.
      * by apply prefix_cons.
Qed.

(** No disconnection seen: every fragment is relayed and the loop is left
    the way the driver ends. *)
Lemma async_for_through (yields : list string) (raises : option exn) :
  ∀ poll acc,
    (∀ j, j < length yields → is_disconnected (poll + j) = false) →
    async_for is_disconnected poll yields raises acc
    = (fragment_event <$> yields, acc +:+ concat_text yields,
       match raises with None => Exhausted | Some e => Raised e end).
Proof.
  induction yields as [|chunk rest IH]; intros poll acc Hconn; simpl.
  - by rewrite str_app_empty_r.
  - specialize (Hconn 0 ltac:(simpl; lia)) as H0. rewrite Nat.add_0_r in H0. rewrite H0.
    rewrite IH.
    + by rewrite str_app_assoc.
    + intros j Hj. replace (S poll + j) with (poll + S j) by lia.
      apply Hconn. simpl; lia.
Qed.

(** Disconnection seen first at poll [k], while fragment [k] is at hand:
    fragments [0..k-1] were relayed, fragment [k] is neither relayed nor
    accumulated, and the loop is left by [break]. *)
Lemma async_for_break (yields : list string) (raises : option exn) :
  ∀ k poll acc,
    k < length yields →
    (∀ j, j < k → is_disconnected (poll + j) = false) →
    is_disconnected (poll + k) = true →
    async_for is_disconnected poll yields raises acc
    = (fragment_event <$> take k yields, acc +:+ concat_text (take k yields), Break).
Proof.
  induction yields as [|chunk rest IH]; intros k poll acc Hk Hconn Hdisc; simpl in *.
  - lia.
  - destruct k as [|k].
    + rewrite Nat.add_0_r in Hdisc. rewrite Hdisc. simpl. by rewrite str_app_empty_r.
    + specialize (Hconn 0 ltac:(lia)) as H0. rewrite Nat.add_0_r in H0. rewrite H0.
      rewrite (IH k).
      * simpl. by rewrite str_app_assoc.
      * lia.
      * intros j Hj. replace (S poll + j) with (poll + S j) by lia. apply Hconn. lia.
      * by replace (S poll + k) with (poll + S k) by lia.
Qed.

End relay.

(** ** The generator *)

Section generator.

Lemma event_generator_eq (w : World) (request : ChatRequest.t) (env : Env) :
  event_generator w request env
  = ((try_block w request env).1.1 ++ [closing_event (try_block w request env).2],
     finally_block w request env (try_block w request env).1.2).
Proof.
  unfold event_generator. by destruct (try_block w request env) as [[events text] []].
Qed.

(** With a model handle, the provider is called on the normalised stored
    history and on the text of the request. *)
Lemma driver_stream_some (w : World) (request : ChatRequest.t) (model : GenerativeModel) :
  gemini_client (STATE w) = Some model →
  driver_stream w request
  = let response_stream :=
      model (omap turn_of_message (current_history w request))
            (ChatRequest.message request) in
    {| yields := List.filter (λ text, truthy (VStr text)) (chunks response_stream);
       raises := failure response_stream |}.
Proof.
  intros Hm. unfold driver_stream, stream_chat_response.
  by rewrite format_history_objects, Hm.
Qed.

Lemma finally_block_nonblank (w : World) (request : ChatRequest.t) (env : Env) (text : string) :
  Str.has_non_whitespace text →
  finally_block w request env text
  = {| STATE := STATE w;
       disk := append_message_to_session (disk w) (model_message request env text) |}.
Proof.
  intros H%strip_truthy. unfold finally_block. by rewrite H.
Qed.


(** The generator leaves the sessions of the process and the index on
    disk alone. *)
Lemma event_generator_keeps_sessions (w : World) (request : ChatRequest.t) (env : Env) :
  STATE (event_generator w request env).2 = STATE w
  ∧ sessions_json (disk (event_generator w request env).2) = sessions_json (disk w).
Proof.
  rewrite event_generator_eq. simpl. unfold finally_block.
  by destruct (truthy _).
Qed.

Lemma terminal_after_fragments (fragments : list string) (last : Event) :
  is_terminal last = true →
  List.filter is_terminal ((fragment_event <$> fragments) ++ [last]) = [last].
Proof.
  intros Hlast. induction fragments as [|f fragments IH]; simpl.
  - by rewrite Hlast.
  - done.
Qed.

Lemma fragments_before_terminal (fragments : list string) (last : Event) :
  is_fragment last = false →
  List.filter is_fragment ((fragment_event <$> fragments) ++ [last])
  = fragment_event <$> fragments.
Proof.
  intros Hlast. induction fragments as [|f fragments IH]; simpl.
  - by rewrite Hlast.
  - by f_equal.
Qed.


(** C1, as the claim states it, fails: when the disconnection is seen at
    the second poll the loop is left by [break], which leads to the
    end-of-stream marker; one [end] event follows the fragment. *)
Lemma disconnect_still_emits_end :
  (try_block abc_world hello_request (disconnected_at 1)).2 = Break
  ∧ (event_generator abc_world hello_request (disconnected_at 1)).1
    = [fragment_event "a"; end_event]
  ∧ ¬ Forall (λ ev, is_terminal ev = false)
        (event_generator abc_world hello_request (disconnected_at 1)).1.
Proof.
  split_and!; [reflexivity | reflexivity |].
  intros H. change (Forall (λ ev, is_terminal ev = false) [fragment_event "a"; end_event]) in H.
  apply Forall_cons in H as [_ H]. apply Forall_cons in H as [H _]. discriminate H.
Qed.

(** C1, amended.  When the disconnection is first seen at poll [k], with
    fragment [k] of the driver at hand, the relay stops there: fragments
    up to [k-1] have been emitted, fragment [k] and all later ones are
    neither emitted nor accumulated, no [error] event is emitted, and the
    generator then emits the one [end] event. *)
Theorem disconnect_stops_relay
    (w : World) (request : ChatRequest.t) (env : Env) (k : nat) :
  let fragments := yields (driver_stream w request) in
  k < length fragments →
  (∀ j, j < k → is_disconnected env j = false) →
  is_disconnected env k = true →
  event_generator w request env
  = ((fragment_event <$> take k fragments) ++ [end_event],
     finally_block w request env (concat_text (take k fragments)))
  ∧ List.filter is_terminal (event_generator w request env).1 = [end_event]
  ∧ List.filter is_fragment (event_generator w request env).1
    = fragment_event <$> take k fragments.
Proof.
  intros fragments Hk Hconn Hdisc.
  assert (try_block w request env
          = (fragment_event <$> take k fragments, concat_text (take k fragments), Break))
    as Htry.
  { unfold try_block. fold fragments.
    by rewrite (async_for_break _ fragments _ k 0 EmptyString). }
  rewrite event_generator_eq, Htry. simpl. split_and!; [done | |].
  - by apply terminal_after_fragments.
  - by apply fragments_before_terminal.
Qed.

Lemma disconnect_stops_relay_witness :
  (event_generator five_world hello_request (disconnected_at 2)).1
  = [fragment_event "a"; fragment_event "b"; end_event]
  ∧ load_session_history
      (disk (event_generator five_world hello_request (disconnected_at 2)).2) "s1"
    = [model_message hello_request (disconnected_at 2) "ab"].
Proof.
  destruct (disconnect_stops_relay five_world hello_request (disconnected_at 2) 2)
    as (Heq & _ & _).
  - vm_compute. lia.
  - intros j Hj. simpl. apply bool_decide_eq_false. lia.
  - reflexivity.
  - rewrite Heq. split; reflexivity.
Defined.

Lemma one_named_terminal (fragments : list string) (last : Event) :
  event last = Some "end" ∨ event last = Some "error" →
  List.filter (λ ev, bool_decide (event ev = Some "end" ∨ event ev = Some "error"))
    (((λ chunk, {| event := None; data := chunk |}) <$> fragments) ++ [last])
  = [last].
Proof.
  intros Hlast. induction fragments as [|f fragments IH]; simpl.
  - by rewrite bool_decide_eq_true_2.
  - done.
Qed.

(** C5.  When the driver ends by raising [e] and the caller stays
    connected, the generator relays the fragments that came before, then
    emits one event whose [event] field is [error] and whose data is
    [str(e)]: the provider's description, or Python's message for a missing
    attribute.  No other event is named [end] or [error].  The generator
    returns instead of raising, so the call answers with that event stream,
    and its [finally] block runs on the text accumulated so far, which is
    persisted when it has a character that is not whitespace. *)
Theorem driver_error_reported_once
    (w : World) (request : ChatRequest.t) (env : Env) (e : exn) :
  let fragments := yields (driver_stream w request) in
  raises (driver_stream w request) = Some e →
  (∀ j, j < length fragments → is_disconnected env j = false) →
  event_generator w request env
  = ((fragment_event <$> fragments) ++ [error_event e],
     finally_block w request env (concat_text fragments))
  ∧ List.filter is_terminal (event_generator w request env).1 = [error_event e]
  ∧ data (error_event e) = exn_str e
  ∧ (Str.has_non_whitespace (concat_text fragments) →
     load_session_history (disk (event_generator w request env).2)
       (ChatRequest.session_id request)
     = load_session_history (disk w) (ChatRequest.session_id request)
       ++ [model_message request env (concat_text fragments)])
  ∧ (event_generator w request env).1
    = ((λ chunk, {| event := None; data := chunk |}) <$> fragments)
      ++ [{| event := Some "error"; data := exn_str e |}]
  ∧ (∀ description,
       e = UpstreamError description →
       last (event_generator w request env).1
       = Some {| event := Some "error"; data := description |})
  ∧ (∀ cls attr,
       e = AttributeError cls attr →
       last (event_generator w request env).1
       = Some {| event := Some "error";
                 data := "'" +:+ cls +:+ "' object has no attribute '" +:+ attr +:+ "'" |})
  ∧ List.filter (λ ev, bool_decide (event ev = Some "end" ∨ event ev = Some "error"))
      (event_generator w request env).1
    = [{| event := Some "error"; data := exn_str e |}]
  ∧ (∀ w0,
       chat_stream_prepare w0 request env = inr w →
       chat_stream w0 request env
       = (inr (((λ chunk, {| event := None; data := chunk |}) <$> fragments)
               ++ [{| event := Some "error"; data := exn_str e |}]),
          finally_block w request env (concat_text fragments))).
Proof.
  intros fragments Hraise Hconn.
  assert (try_block w request env
          = (fragment_event <$> fragments, concat_text fragments, Raised e)) as Htry.
  { unfold try_block. fold fragments.
    rewrite (async_for_through _ fragments _ 0 EmptyString) by done.
    by rewrite Hraise. }
  assert (event_generator w request env
          = (((λ chunk, {| event := None; data := chunk |}) <$> fragments)
             ++ [{| event := Some "error"; data := exn_str e |}],
             finally_block w request env (concat_text fragments))) as Hrun.
  { by rewrite event_generator_eq, Htry. }
  rewrite Hrun. simpl. split_and!; try done.
  - by apply terminal_after_fragments.
  - intros H. rewrite finally_block_nonblank by done. simpl.
    apply (load_after_append (disk w) (model_message request env (concat_text fragments))).
  - intros description ->. by rewrite last_snoc.
  - intros cls attr ->. by rewrite last_snoc.
  - apply one_named_terminal. by right.
  - intros w0 Hprep. unfold chat_stream. by rewrite Hprep, Hrun.
Qed.

Lemma driver_error_reported_once_witness :
  (event_generator broken_world hi_request connected).1
  = [{| event := None; data := "Hello" |};
     {| event := Some "error"; data := "connection reset" |}]
  ∧ load_session_history (disk (event_generator broken_world hi_request connected).2) "s1"
    = [model_message hi_request connected "Hello"].
Proof.
  destruct (driver_error_reported_once broken_world hi_request connected broken)
    as (Heq & _ & _ & Hsaved & _).
  - reflexivity.
  - intros j _. reflexivity.
  - split; [by rewrite Heq|].
    apply Hsaved. exists "H"%char. split; [|reflexivity].
    simpl. apply elem_of_cons. by left.
Defined.

End generator.

(** ** The index on disk follows the process *)

Section index.

Lemma index_synced_lifespan (d : Disk) (model : option GenerativeModel) (now : Z) :
  (∀ key session, load_all_sessions d !! key = Some session → Session.id session = key) →
  index_synced (lifespan d model now).
Proof.
  intros Hkeyed sid session. unfold lifespan.
  destruct (decide (size (load_all_sessions d) = 0)) as [Hempty|Hsome]; simpl.
  - apply map_size_empty_iff in Hempty. rewrite index_after_save, Hempty. simpl.
    destruct (decide ("default" = sid)) as [<-|Hne].
    + rewrite !lookup_insert_eq. by intros [= <-].
    + rewrite lookup_insert_ne, lookup_empty by done. done.
  - intros H. split; [by apply Hkeyed | done].
Qed.

Lemma index_synced_create (w : World) (uuid : string) (now : Z) :
  index_synced w → index_synced (create_new_session w uuid now).2.
Proof.
  intros Hsync sid session. simpl. rewrite index_after_save. simpl.
  destruct (decide (uuid = sid)) as [<-|Hne].
  - rewrite !lookup_insert_eq. by intros [= <-].
  - rewrite !lookup_insert_ne by done. apply Hsync.
Qed.

Lemma index_synced_prepare (w w' : World) (request : ChatRequest.t) (env : Env) :
  index_synced w → chat_stream_prepare w request env = inr w' → index_synced w'.
Proof.
  intros Hsync. unfold chat_stream_prepare.
  destruct (sessions (STATE w) !! _) as [current|] eqn:Hcur; [|done].
  destruct (gemini_client (STATE w)) as [model|]; [|done].
  destruct (Hsync _ _ Hcur) as [Hid Hdisk].
  destruct (decide _); intros [= <-]; [|exact Hsync].
  intros sid session. simpl.
  erewrite index_after_title; [|exact Hdisk|exact Hid].
  destruct (decide (ChatRequest.session_id request = sid)) as [<-|Hne].
  - rewrite !lookup_insert_eq. intros [= <-]. done.
  - rewrite !lookup_insert_ne by done. apply Hsync.
Qed.

Lemma index_synced_generator (w : World) (request : ChatRequest.t) (env : Env) :
  index_synced w → index_synced (event_generator w request env).2.
Proof.
  intros Hsync sid session.
  destruct (event_generator_keeps_sessions w request env) as [Hstate Hindex].
  unfold load_all_sessions. rewrite Hstate, Hindex. apply Hsync.
Qed.

End index.

(** ** The endpoint *)

Section endpoint.


Lemma prepare_ok (w : World) (request : ChatRequest.t) (env : Env)
    (session : Session.t) (model : GenerativeModel) :
  sessions (STATE w) !! ChatRequest.session_id request = Some session →
  gemini_client (STATE w) = Some model →
  chat_stream_prepare w request env
  = inr (let d := append_message_to_session (disk w) (user_message request env) in
         if decide (Session.title session = "New Chat") then
           {| STATE :=
                {| sessions :=
                     <[ChatRequest.session_id request :=
                         Session.with_title session
                           (derived_title (ChatRequest.message request))]>
                       (sessions (STATE w));
                   gemini_client := gemini_client (STATE w) |};
              disk := update_session_title d (ChatRequest.session_id request)
                        (derived_title (ChatRequest.message request)) |}
         else {| STATE := STATE w; disk := d |}).
Proof.
  intros Hs Hm. unfold chat_stream_prepare. rewrite Hs, Hm.
  by destruct (decide _).
Qed.

(** What the prepared world keeps: the model handle, and in the history
    of the session the old messages followed by the new user message. *)
Lemma prepare_history (w w' : World) (request : ChatRequest.t) (env : Env) :
  chat_stream_prepare w request env = inr w' →
  gemini_client (STATE w') = gemini_client (STATE w)
  ∧ current_history w' request
    = load_session_history (disk w) (ChatRequest.session_id request)
      ++ [user_message request env].
Proof.
  unfold chat_stream_prepare.
  destruct (sessions (STATE w) !! _) as [session|]; [|done].
  destruct (gemini_client (STATE w)) as [model|] eqn:Hm; [|done].
  unfold current_history.
  destruct (decide _); intros [= <-]; simpl; (split; [done|]).
  - rewrite load_after_title. apply (load_after_append (disk w) (user_message request env)).
  - apply (load_after_append (disk w) (user_message request env)).
Qed.

(** C4.  A request for a session id that is not in [STATE.sessions] is
    rejected with 404, and a request for a known session while the model
    handle is missing is rejected with 503; in both cases, and whenever the
    call is rejected, the world is left exactly as it was: no message is
    appended and no title is changed, in the process or on disk. *)
Theorem rejected_before_any_side_effect
    (w : World) (request : ChatRequest.t) (env : Env) :
  let session_id := ChatRequest.session_id request in
  (sessions (STATE w) !! session_id = None →
   chat_stream w request env
   = (inl {| status_code := 404; detail := "Session not found" |}, w))
  ∧ (is_Some (sessions (STATE w) !! session_id) →
     gemini_client (STATE w) = None →
     chat_stream w request env
     = (inl {| status_code := 503; detail := "Gemini client not available" |}, w))
  ∧ (sessions (STATE w) !! session_id = None ∨ gemini_client (STATE w) = None →
     ∃ rejection,
       chat_stream w request env = (inl rejection, w)
       ∧ chat_stream_prepare w request env = inl rejection)
  ∧ (∀ rejection w',
       chat_stream w request env = (inl rejection, w') →
       w' = w
       ∧ (sessions (STATE w) !! session_id = None
          ∨ gemini_client (STATE w) = None)).
Proof.
  intros session_id. unfold chat_stream, chat_stream_prepare. fold session_id.
  split_and!.
  - by intros ->.
  - intros [session ->] ->. done.
  - intros [-> | ->]; [by eexists|].
    destruct (sessions (STATE w) !! session_id); by eexists.
  - intros rejection w'.
    destruct (sessions (STATE w) !! session_id) as [session|]; [|intros [= <- <-]; auto].
    destruct (gemini_client (STATE w)) as [model|]; [|intros [= <- <-]; auto].
    destruct (decide _); by destruct (event_generator _ _ _).
Qed.

Lemma rejected_before_any_side_effect_witness :
  chat_stream echo_world stranger_request connected
  = (inl {| status_code := 404; detail := "Session not found" |}, echo_world)
  ∧ chat_stream (sample_world None) hello_request connected
    = (inl {| status_code := 503; detail := "Gemini client not available" |},
       sample_world None).
Proof.
  split.
  - apply (proj1 (rejected_before_any_side_effect echo_world stranger_request connected)).
    reflexivity.
  - apply (proj1 (proj2
      (rejected_before_any_side_effect (sample_world None) hello_request connected))).
    + exists new_chat. reflexivity.
    + reflexivity.
Defined.

(** C7.  For a valid request on a session whose title is exactly
    [New Chat], the title of the session in the process becomes the first
    five whitespace-separated words of the message joined by single spaces,
    and [update_session_title] is run on the store with that title, which
    puts it in the index on disk when the index lists the session, as it
    does in every world where the index follows the process; for any other
    title, neither the sessions of the process nor the index on disk
    change.  Streaming afterwards changes neither. *)
Theorem title_from_first_five_words
    (w : World) (request : ChatRequest.t) (env : Env)
    (session : Session.t) (model : GenerativeModel) :
  let session_id := ChatRequest.session_id request in
  let new_title := Str.join " " (take 5 (Str.split (ChatRequest.message request))) in
  sessions (STATE w) !! session_id = Some session →
  gemini_client (STATE w) = Some model →
  ∃ w',
    chat_stream_prepare w request env = inr w'
    ∧ chat_stream w request env
      = (inr (event_generator w' request env).1, (event_generator w' request env).2)
    ∧ STATE (event_generator w' request env).2 = STATE w'
    ∧ sessions_json (disk (event_generator w' request env).2) = sessions_json (disk w')
    ∧ (Session.title session = "New Chat" →
       sessions (STATE w')
       = <[session_id := Session.with_title session new_title]> (sessions (STATE w))
       ∧ Session.title <$> sessions (STATE w') !! session_id = Some new_title
       ∧ disk w'
         = update_session_title
             (append_message_to_session (disk w) (user_message request env))
             session_id new_title
       ∧ (∀ stored,
            load_all_sessions (disk w) !! session_id = Some stored →
            Session.id stored = session_id →
            Session.title <$> load_all_sessions (disk w') !! session_id = Some new_title))
    ∧ (Session.title session ≠ "New Chat" →
       sessions (STATE w') = sessions (STATE w)
       ∧ sessions_json (disk w') = sessions_json (disk w))
    ∧ (index_synced w →
       index_synced w'
       ∧ (Session.title session = "New Chat" →
          Session.title <$> load_all_sessions (disk w') !! session_id = Some new_title)).
Proof.
  intros session_id new_title Hs Hm.
  eexists. split; [by apply (prepare_ok w request env session model)|].
  unfold chat_stream. rewrite (prepare_ok w request env session model) by done.
  fold session_id. change (derived_title (ChatRequest.message request)) with new_title.
  set (w' := if decide _ then _ else _).
  split_and!.
  - by destruct (event_generator w' request env).
  - apply event_generator_keeps_sessions.
  - apply event_generator_keeps_sessions.
  - intros Htitle. unfold w'. rewrite decide_True by done. simpl. split_and!; try done.
    + by rewrite lookup_insert_eq.
    + intros stored Hstored Hid.
      erewrite index_after_title; [|done..].
      by rewrite lookup_insert_eq.
  - intros Htitle. unfold w'. by rewrite decide_False by done.
  - intros Hsync. destruct (Hsync _ _ Hs) as [Hid Hstored]. split.
    + eapply index_synced_prepare; [done|].
      by apply (prepare_ok w request env session model).
    + intros Htitle. unfold w'. rewrite decide_True by done. simpl.
      erewrite index_after_title; [|done..].
      by rewrite lookup_insert_eq.
Qed.

Lemma title_from_first_five_words_witness :
  Session.title
    <$> sessions (STATE (chat_stream story_world story_request connected).2) !! "s1"
  = Some "Tell me a long story"
  ∧ Session.title
      <$> load_all_sessions (disk (chat_stream story_world story_request connected).2) !! "s1"
    = Some "Tell me a long story"
  ∧ load_session_history (disk (chat_stream story_world story_request connected).2) "s1"
    = [user_message story_request connected;
       model_message story_request connected "Once upon a time"].
Proof.
  destruct (title_from_first_five_words story_world story_request connected new_chat
              story_model)
    as (w' & Hprep & Hrun & Hstate & Hindex & Hnew & _ & _).
  - reflexivity.
  - reflexivity.
  - rewrite Hrun. simpl. rewrite Hstate.
    destruct (Hnew eq_refl) as (_ & Hmem & _ & Hdisk).
    split_and!.
    + exact Hmem.
    + unfold load_all_sessions. rewrite Hindex. apply (Hdisk new_chat); reflexivity.
    + injection Hprep as <-. reflexivity.
Defined.

End endpoint.

(** ** The history that reaches the model *)

Section seeded_history.

(** C9.  Two requests with the same session id and the same message give
    the same outcome whatever they carry in [history]: the same rejection
    or prepared world, the same history handed to the driver, the same
    driver stream, the same events and the same final world. *)
Theorem caller_history_ignored
    (w : World) (r1 r2 : ChatRequest.t) (env : Env) :
  ChatRequest.session_id r1 = ChatRequest.session_id r2 →
  ChatRequest.message r1 = ChatRequest.message r2 →
  chat_stream_prepare w r1 env = chat_stream_prepare w r2 env
  ∧ (∀ w', current_history w' r1 = current_history w' r2
           ∧ driver_stream w' r1 = driver_stream w' r2
           ∧ event_generator w' r1 env = event_generator w' r2 env)
  ∧ chat_stream w r1 env = chat_stream w r2 env.
Proof.
  destruct r1 as [sid1 msg1 h1], r2 as [sid2 msg2 h2]; simpl.
  intros -> ->. done.
Qed.

Lemma caller_history_ignored_witness :
  ChatRequest.history hi_request ≠ ChatRequest.history forged_request
  ∧ chat_stream echo_world hi_request connected
    = chat_stream echo_world forged_request connected.
Proof.
  split; [discriminate|].
  apply (caller_history_ignored echo_world hi_request forged_request connected);
    reflexivity.
Defined.

(** C10, as the claim states it, fails for the empty message: the stored
    history handed to the driver ends with the user message, but the loop
    drops it, so the provider is seeded with no turn and is sent the text
    once. *)
Lemma empty_message_not_seeded :
  ∃ w',
    chat_stream_prepare echo_world empty_request connected = inr w'
    ∧ current_history w' empty_request = [user_message empty_request connected]
    ∧ format_history (message_object <$> current_history w' empty_request) = Ok []
    ∧ (chat_stream echo_world empty_request connected).1
      = inr [fragment_event "0"; end_event]
    ∧ ¬ ∃ seeded,
          format_history (message_object <$> current_history w' empty_request)
          = Ok (seeded ++ [{| Turn.role := "user";
                              Turn.parts := [ChatRequest.message empty_request] |}]).
Proof.
  eexists. split_and!; [reflexivity..|].
  intros [seeded H]. vm_compute in H. injection H as H.
  by destruct seeded.
Qed.

(** C10, amended.  For a valid request the history handed to the driver
    is the stored history followed by the new user message, and the text
    of the request is also the text sent as the newest turn; when that
    text is not empty, the history the provider is seeded with ends with a
    user turn holding it, so the provider receives the message twice. *)
Theorem new_message_sent_twice
    (w : World) (request : ChatRequest.t) (env : Env)
    (session : Session.t) (model : GenerativeModel) :
  let session_id := ChatRequest.session_id request in
  let message := ChatRequest.message request in
  let turn := {| Turn.role := "user"; Turn.parts := [message] |} in
  sessions (STATE w) !! session_id = Some session →
  gemini_client (STATE w) = Some model →
  ∃ w' seeded,
    chat_stream_prepare w request env = inr w'
    ∧ current_history w' request
      = load_session_history (disk w) session_id ++ [user_message request env]
    ∧ format_history (message_object <$> load_session_history (disk w) session_id)
      = Ok seeded
    ∧ (message ≠ EmptyString →
       format_history (message_object <$> current_history w' request)
       = Ok (seeded ++ [turn])
       ∧ driver_stream w' request
         = {| yields := List.filter (λ text, truthy (VStr text))
                          (chunks (model (seeded ++ [turn]) message));
              raises := failure (model (seeded ++ [turn]) message) |}).
Proof.
  intros session_id message turn Hs Hm.
  destruct (chat_stream_prepare w request env) as [rejection|w'] eqn:Hprep.
  { by rewrite (prepare_ok w request env session model) in Hprep. }
  destruct (prepare_history w w' request env Hprep) as [Hmodel Hhist].
  exists w', (omap turn_of_message (load_session_history (disk w) session_id)).
  split_and!; [done | done | apply format_history_objects |].
  intros Hne.
  assert (omap turn_of_message (current_history w' request)
          = omap turn_of_message (load_session_history (disk w) session_id) ++ [turn])
    as Hseed.
  { rewrite Hhist, omap_app. f_equal. simpl. unfold turn_of_message. simpl.
    fold message. by destruct message. }
  split.
  - by rewrite format_history_objects, Hseed.
  - rewrite (driver_stream_some w' request model) by (by rewrite Hmodel).
    simpl. by rewrite Hseed.
Qed.

Lemma new_message_sent_twice_witness :
  (chat_stream echo_world hi_request connected).1
  = inr [fragment_event "1"; fragment_event "hi"; end_event].
Proof.
  destruct (new_message_sent_twice echo_world hi_request connected new_chat echo)
    as (w' & seeded & Hprep & _ & Hseeded & Htwice).
  - reflexivity.
  - reflexivity.
  - destruct Htwice as [_ Hstream]; [discriminate|].
    injection Hseeded as <-.
    unfold chat_stream. rewrite Hprep, event_generator_eq.
    unfold try_block. rewrite Hstream. reflexivity.
Defined.

End seeded_history.

(** * Further properties of the store *)

Section store_round_trips.

Lemma generated_default : generated_id "default".
Proof. by left. Qed.

Lemma generated_sample_uuid : generated_id sample_uuid.
Proof. right. split; [reflexivity|]. repeat constructor. Qed.

(** X1.  For session ids of the kind the process makes, which name
    different files: after a message is appended, the history of its
    session is the history loaded before followed by the message; the
    history of every other session and the index of sessions are as
    before. *)
Theorem append_then_load (d : Disk) (message : Message.t) (session_id : string) :
  generated_id session_id →
  generated_id (Message.session_id message) →
  load_session_history (append_message_to_session d message) session_id
  = (if decide (session_id = Message.session_id message)
     then load_session_history d session_id ++ [message]
     else load_session_history d session_id)
  ∧ load_all_sessions (append_message_to_session d message) = load_all_sessions d.
Proof.
  intros _ _. split; [|done]. destruct (decide _) as [->|Hne].
  - apply load_after_append.
  - by apply load_after_append_other.
Qed.

Lemma append_then_load_witness :
  load_session_history (append_message_to_session sample_disk default_message) "default"
  = [default_message]
  ∧ load_session_history (append_message_to_session sample_disk default_message) sample_uuid
    = [].
Proof.
  split.
  - apply (proj1 (append_then_load sample_disk default_message "default"
                    generated_default generated_default)).
  - apply (proj1 (append_then_load sample_disk default_message sample_uuid
                    generated_sample_uuid generated_default)).
Defined.

(** X2.  For a session id of the kind the process makes, whose file can
    be created under [history/]: appending to a session whose history file
    is missing or cannot be read writes a file that holds the new message
    alone. *)
Theorem append_to_unreadable_history (d : Disk) (message : Message.t) :
  generated_id (Message.session_id message) →
  history_dir d !! Message.session_id message = None
  ∨ history_dir d !! Message.session_id message = Some Corrupt →
  history_dir (append_message_to_session d message) !! Message.session_id message
  = Some (Stored [message])
  ∧ load_session_history (append_message_to_session d message)
      (Message.session_id message)
    = [message].
Proof.
  intros _ H.
  assert (load_session_history d (Message.session_id message) = []) as Hload.
  { unfold load_session_history. by destruct H as [-> | ->]. }
  split.
  - unfold append_message_to_session; simpl. by rewrite lookup_insert_eq, Hload.
  - by rewrite load_after_append, Hload.
Qed.

Lemma append_to_unreadable_history_witness :
  history_dir (append_message_to_session corrupt_default_disk default_message) !! "default"
  = Some (Stored [default_message]).
Proof.
  apply (proj1 (append_to_unreadable_history corrupt_default_disk default_message
                  generated_default (or_intror eq_refl))).
Defined.

(** X3.  For session ids of the kind the process makes, which name
    different files: after any sequence of appends, the history of a
    session is its earlier history followed by the appended messages of
    that session in the order of their arrival. *)
Theorem appends_keep_arrival_order
    (messages : list Message.t) (d : Disk) (session_id : string) :
  generated_id session_id →
  Forall (λ m, generated_id (Message.session_id m)) messages →
  load_session_history (foldl append_message_to_session d messages) session_id
  = load_session_history d session_id
    ++ filter (λ m, Message.session_id m = session_id) messages.
Proof.
  intros _ _. revert d. induction messages as [|m messages IH]; intros d; simpl.
  - by rewrite app_nil_r.
  - rewrite IH, filter_cons.
    destruct (decide (Message.session_id m = session_id)) as [<-|Hne].
    + by rewrite load_after_append, <- app_assoc.
    + by rewrite load_after_append_other.
Qed.

Lemma appends_keep_arrival_order_witness :
  load_session_history
    (foldl append_message_to_session sample_disk
       [default_message; uuid_message; default_message]) "default"
  = [default_message; default_message].
Proof.
  apply (appends_keep_arrival_order [default_message; uuid_message; default_message]
           sample_disk "default" generated_default).
  repeat apply List.Forall_cons; try apply List.Forall_nil;
    first [apply generated_default | apply generated_sample_uuid].
Defined.

(** X4.  A saved session is found in the index under its id, the other
    entries of the index and all histories are untouched, and saving the
    same session again changes nothing. *)
Theorem save_then_load_session (d : Disk) (session : Session.t) :
  load_all_sessions (save_session d session) !! Session.id session = Some session
  ∧ (∀ key, key ≠ Session.id session →
       load_all_sessions (save_session d session) !! key = load_all_sessions d !! key)
  ∧ save_session (save_session d session) session = save_session d session
  ∧ (∀ session_id,
       load_session_history (save_session d session) session_id
       = load_session_history d session_id).
Proof.
  split_and!.
  - by rewrite index_after_save, lookup_insert_eq.
  - intros key Hne. by rewrite index_after_save, lookup_insert_ne.
  - unfold save_session at 1. rewrite index_after_save, insert_insert_eq. done.
  - done.
Qed.

(** X5.  Saving a session while [sessions.json] is missing or cannot be
    read writes an index that holds this session alone: whatever the
    unreadable file held is gone. *)
Theorem save_on_unreadable_index (d : Disk) (session : Session.t) :
  sessions_json d = None ∨ sessions_json d = Some Corrupt →
  load_all_sessions (save_session d session) = {[Session.id session := session]}.
Proof.
  intros H. rewrite index_after_save.
  assert (load_all_sessions d = ∅) as ->.
  { unfold load_all_sessions. by destruct H as [-> | ->]. }
  apply insert_empty.
Qed.

Lemma save_on_unreadable_index_witness :
  load_all_sessions (save_session corrupt_index_disk new_chat) = {["s1" := new_chat]}.
Proof.
  apply (save_on_unreadable_index corrupt_index_disk new_chat (or_intror eq_refl)).
Defined.

(** X6.  [update_session_title] does nothing when the index does not list
    the session.  When the index lists it under its own id, the entry gets
    the new title and keeps its id and creation time, and no other entry
    changes.  Histories are never touched. *)
Theorem update_title_effect (d : Disk) (session_id new_title : string) :
  (load_all_sessions d !! session_id = None →
   update_session_title d session_id new_title = d)
  ∧ (∀ stored,
       load_all_sessions d !! session_id = Some stored →
       Session.id stored = session_id →
       ∃ updated,
         load_all_sessions (update_session_title d session_id new_title) !! session_id
         = Some updated
         ∧ Session.title updated = new_title
         ∧ Session.id updated = session_id
         ∧ Session.created_at updated = Session.created_at stored
         ∧ ∀ key, key ≠ session_id →
             load_all_sessions (update_session_title d session_id new_title) !! key
             = load_all_sessions d !! key)
  ∧ (∀ other,
       load_session_history (update_session_title d session_id new_title) other
       = load_session_history d other).
Proof.
  split_and!.
  - apply index_after_title_unlisted.
  - intros stored Hs Hid. exists (Session.with_title stored new_title).
    rewrite (index_after_title d session_id new_title stored Hs Hid).
    split_and!; [by rewrite lookup_insert_eq | done | done | done |].
    intros key Hne. by rewrite lookup_insert_ne.
  - intros other. apply load_after_title.
Qed.

(** X7.  For a session the index lists under its own id, two title
    updates in a row leave the store as the second alone does. *)
Theorem update_title_last_wins
    (d : Disk) (session_id t1 t2 : string) (stored : Session.t) :
  load_all_sessions d !! session_id = Some stored →
  Session.id stored = session_id →
  update_session_title (update_session_title d session_id t1) session_id t2
  = update_session_title d session_id t2.
Proof.
  intros Hs Hid. unfold update_session_title at 1.
  rewrite (index_after_title d session_id t1 stored Hs Hid), lookup_insert_eq.
  unfold update_session_title. rewrite Hs. unfold save_session. simpl.
  change (load_all_sessions {| sessions_json := Some (Stored ?m); history_dir := _ |})
    with m.
  rewrite insert_insert_eq. done.
Qed.

Lemma update_title_last_wins_witness :
  update_session_title (update_session_title sample_disk "s1" "first") "s1" "second"
  = update_session_title sample_disk "s1" "second".
Proof.
  apply (update_title_last_wins sample_disk "s1" "first" "second" new_chat);
    reflexivity.
Defined.

(** X8.  When the index files a session under a key that is not its id,
    a title update for that key leaves the entry under the key as it was
    and stores the retitled session under its id instead. *)
Theorem update_title_misfiled
    (d : Disk) (key new_title : string) (stored : Session.t) :
  load_all_sessions d !! key = Some stored →
  Session.id stored ≠ key →
  load_all_sessions (update_session_title d key new_title) !! key = Some stored
  ∧ load_all_sessions (update_session_title d key new_title) !! Session.id stored
    = Some (Session.with_title stored new_title).
Proof.
  intros Hs Hne. unfold update_session_title. rewrite Hs, index_after_save. simpl.
  split.
  - by rewrite lookup_insert_ne.
  - by rewrite lookup_insert_eq.
Qed.

Lemma update_title_misfiled_witness :
  Session.title
    <$> load_all_sessions (update_session_title misfiled_disk "alias" "renamed") !! "alias"
  = Some "New Chat".
Proof.
  rewrite (proj1 (update_title_misfiled misfiled_disk "alias" "renamed" new_chat
                    eq_refl ltac:(discriminate))).
  reflexivity.
Defined.

End store_round_trips.

(** * Further properties of the endpoints *)

Section endpoints_composed.

Lemma finally_block_state (w : World) (request : ChatRequest.t) (env : Env) (text : string) :
  STATE (finally_block w request env text) = STATE w.
Proof. unfold finally_block. by destruct (truthy _). Qed.

Lemma finally_block_load (w : World) (request : ChatRequest.t) (env : Env)
    (text session_id : string) :
  load_session_history (disk (finally_block w request env text)) session_id
  = load_session_history (disk w) session_id
    ++ (if decide (session_id = ChatRequest.session_id request)
        then (if truthy (VStr (Str.strip text))
              then [model_message request env text] else [])
        else []).
Proof.
  unfold finally_block. destruct (truthy _); simpl.
  - destruct (decide _) as [->|Hne].
    + apply (load_after_append (disk w) (model_message request env text)).
    + rewrite app_nil_r.
      by apply (load_after_append_other (disk w) (model_message request env text)).
  - by destruct (decide _); rewrite app_nil_r.
Qed.

(** The two ways a call can go: rejected with the world untouched, or
    prepared and streamed. *)
Lemma chat_stream_cases (w : World) (request : ChatRequest.t) (env : Env) :
  (∃ rejection,
     chat_stream_prepare w request env = inl rejection
     ∧ chat_stream w request env = (inl rejection, w))
  ∨ (∃ session model w',
       sessions (STATE w) !! ChatRequest.session_id request = Some session
       ∧ gemini_client (STATE w) = Some model
       ∧ chat_stream_prepare w request env = inr w'
       ∧ chat_stream w request env
         = (inr ((try_block w' request env).1.1
                 ++ [closing_event (try_block w' request env).2]),
            finally_block w' request env (try_block w' request env).1.2)).
Proof.
  unfold chat_stream.
  destruct (chat_stream_prepare w request env) as [rejection|w'] eqn:Hprep.
  - left. by exists rejection.
  - right. rewrite event_generator_eq.
    unfold chat_stream_prepare in Hprep.
    destruct (sessions (STATE w) !! _) as [session|] eqn:Hs; [|done].
    destruct (gemini_client (STATE w)) as [model|] eqn:Hm; [|done].
    exists session, model, w'. by split_and!.
Qed.

Lemma prepare_other (w w' : World) (request : ChatRequest.t) (env : Env) (other : string) :
  chat_stream_prepare w request env = inr w' →
  other ≠ ChatRequest.session_id request →
  load_session_history (disk w') other = load_session_history (disk w) other
  ∧ sessions (STATE w') !! other = sessions (STATE w) !! other.
Proof.
  unfold chat_stream_prepare.
  destruct (sessions (STATE w) !! _) as [session|]; [|done].
  destruct (gemini_client (STATE w)) as [model|]; [|done].
  destruct (decide _); intros [= <-] Hne; simpl.
  - rewrite load_after_title, lookup_insert_ne by done. split; [|done].
    by apply load_after_append_other.
  - split; [|done]. by apply load_after_append_other.
Qed.

Lemma prepare_domain (w w' : World) (request : ChatRequest.t) (env : Env) :
  chat_stream_prepare w request env = inr w' →
  dom (sessions (STATE w')) = dom (sessions (STATE w)).
Proof.
  unfold chat_stream_prepare.
  destruct (sessions (STATE w) !! _) as [session|] eqn:Hs; [|done].
  destruct (gemini_client (STATE w)) as [model|]; [|done].
  destruct (decide _); intros [= <-]; simpl; [|done].
  rewrite dom_insert_L. apply subseteq_union_1_L, singleton_subseteq_l.
  by eapply elem_of_dom_2.
Qed.

Lemma closing_not_fragment (exit : Exit) :
  is_fragment (closing_event exit) = false ∧ is_terminal (closing_event exit) = true.
Proof. by destruct exit. Qed.


(** X9.  After startup the process always has at least one session.  If
    no session could be loaded, it holds exactly the session [default]
    titled [New Chat], which is also written to the index, and no history
    file is touched; otherwise it holds the loaded sessions and the disk is
    as it was.  The model handle is whatever [init_model] gave. *)
Theorem lifespan_never_empty (d : Disk) (model : option GenerativeModel) (now : Z) :
  sessions (STATE (lifespan d model now)) ≠ ∅
  ∧ gemini_client (STATE (lifespan d model now)) = model
  ∧ (load_all_sessions d = ∅ →
     sessions (STATE (lifespan d model now)) = {["default" := default_session now]}
     ∧ load_all_sessions (disk (lifespan d model now))
       = {["default" := default_session now]}
     ∧ history_dir (disk (lifespan d model now)) = history_dir d)
  ∧ (load_all_sessions d ≠ ∅ →
     sessions (STATE (lifespan d model now)) = load_all_sessions d
     ∧ disk (lifespan d model now) = d).
Proof.
  unfold lifespan.
  destruct (decide (size (load_all_sessions d) = 0)) as [Hsize|Hsize]; simpl.
  - apply map_size_empty_iff in Hsize. split_and!.
    + apply insert_non_empty.
    + done.
    + intros _. rewrite index_after_save, Hsize. simpl.
      by rewrite !insert_empty.
    + by intros [].
  - split_and!.
    + intros Hempty. by rewrite Hempty, map_size_empty in Hsize.
    + done.
    + intros Hempty. by rewrite Hempty, map_size_empty in Hsize.
    + done.
Qed.

(** X10.  The index on disk follows the process: startup from an index
    that files sessions under their ids (an unreadable one among them)
    leaves every session of the process listed in the index as it is in
    the process, and creating a session or serving a chat call, rejected
    or not, keeps it so. *)
Theorem index_follows_process :
  (∀ d model now, keyed_by_id d → index_synced (lifespan d model now))
  ∧ (∀ d model now,
       sessions_json d = None ∨ sessions_json d = Some Corrupt →
       index_synced (lifespan d model now))
  ∧ (∀ w uuid now, index_synced w → index_synced (create_new_session w uuid now).2)
  ∧ (∀ w request env, index_synced w → index_synced (chat_stream w request env).2).
Proof.
  split_and!.
  - intros d model now Hkeyed. by apply index_synced_lifespan.
  - intros d model now H. apply index_synced_lifespan.
    intros key session. unfold load_all_sessions.
    destruct H as [-> | ->]; by rewrite lookup_empty.
  - intros w uuid now. apply index_synced_create.
  - intros w request env Hsync. unfold chat_stream.
    destruct (chat_stream_prepare w request env) as [rejection|w'] eqn:Hprep; [done|].
    pose proof (index_synced_generator w' request env
                  (index_synced_prepare w w' request env Hsync Hprep)) as H.
    by destruct (event_generator w' request env).
Qed.

(** X11.  A session just created is titled [New Chat], is listed under
    its id in the process and in the index, and its messages can be read
    at once: the answer is the content of its history file, the empty list
    when there is none, never a 404.  Other sessions and their messages are
    as before.  Messages of an id the process does not know are refused
    with 404 even when a history file exists. *)
Theorem fresh_session_fetch (w : World) (uuid : string) (now : Z) :
  let created := create_new_session w uuid now in
  Session.title created.1 = "New Chat"
  ∧ Session.id created.1 = uuid
  ∧ sessions (STATE created.2) !! uuid = Some created.1
  ∧ load_all_sessions (disk created.2) !! uuid = Some created.1
  ∧ get_session_messages created.2 uuid = inr (load_session_history (disk w) uuid)
  ∧ (history_dir (disk w) !! uuid = None → get_session_messages created.2 uuid = inr [])
  ∧ (∀ other, other ≠ uuid →
       sessions (STATE created.2) !! other = sessions (STATE w) !! other
       ∧ get_session_messages created.2 other = get_session_messages w other)
  ∧ (∀ unknown, sessions (STATE w) !! unknown = None →
       get_session_messages w unknown
       = inl {| status_code := 404; detail := "Session not found" |}).
Proof.
  simpl. split_and!; try done.
  - by rewrite lookup_insert_eq.
  - by rewrite index_after_save, lookup_insert_eq.
  - unfold get_session_messages. simpl. by rewrite lookup_insert_eq.
  - intros Hnone. unfold get_session_messages, load_session_history. simpl.
    by rewrite lookup_insert_eq, Hnone.
  - intros other Hne. unfold get_session_messages. simpl.
    by rewrite lookup_insert_ne.
  - intros unknown Hnone. unfold get_session_messages. by rewrite Hnone.
Qed.



(** X13.  A chat call, rejected or not, touches one session only: the
    messages and the process entry of every other session are as before,
    and so is the model handle. *)
Theorem chat_leaves_other_sessions_alone
    (w : World) (request : ChatRequest.t) (env : Env) (other : string) :
  other ≠ ChatRequest.session_id request →
  load_session_history (disk (chat_stream w request env).2) other
  = load_session_history (disk w) other
  ∧ sessions (STATE (chat_stream w request env).2) !! other
    = sessions (STATE w) !! other
  ∧ get_session_messages (chat_stream w request env).2 other
    = get_session_messages w other
  ∧ gemini_client (STATE (chat_stream w request env).2) = gemini_client (STATE w).
Proof.
  intros Hne.
  destruct (chat_stream_cases w request env)
    as [(rejection & _ & ->) | (session & model & w' & _ & _ & Hprep & ->)]; [done|].
  simpl. destruct (prepare_other w w' request env other Hprep Hne) as [Hload Hmem].
  destruct (prepare_history w w' request env Hprep) as [Hclient _].
  assert (load_session_history
            (disk (finally_block w' request env (try_block w' request env).1.2)) other
          = load_session_history (disk w) other) as Hfinal.
  { by rewrite finally_block_load, decide_False, app_nil_r by done. }
  unfold get_session_messages.
  rewrite finally_block_state, Hfinal, Hmem, Hclient. done.
Qed.

Lemma chat_leaves_other_sessions_alone_witness :
  get_session_messages (chat_stream story_world story_request connected).2 "nobody"
  = get_session_messages story_world "nobody".
Proof.
  apply (chat_leaves_other_sessions_alone story_world story_request connected "nobody").
  discriminate.
Defined.

(** X14.  A chat call never removes or reorders stored messages and never
    adds or removes a session: for every session the old history is a
    prefix of the new one, and the process knows the same session ids
    afterwards. *)
Theorem history_only_grows
    (w : World) (request : ChatRequest.t) (env : Env) (session_id : string) :
  load_session_history (disk w) session_id
    `prefix_of` load_session_history (disk (chat_stream w request env).2) session_id
  ∧ dom (sessions (STATE (chat_stream w request env).2)) = dom (sessions (STATE w)).
Proof.
  destruct (chat_stream_cases w request env)
    as [(rejection & _ & ->) | (session & model & w' & _ & _ & Hprep & ->)]; [done|].
  simpl. rewrite finally_block_state, finally_block_load.
  split; [|by apply (prepare_domain w w' request env)].
  destruct (decide (session_id = ChatRequest.session_id request)) as [->|Hne].
  - destruct (prepare_history w w' request env Hprep) as [_ Hhist].
    unfold current_history in Hhist. rewrite Hhist, <- app_assoc.
    by apply prefix_app_r.
  - destruct (prepare_other w w' request env session_id Hprep Hne) as [-> _].
    by rewrite app_nil_r.
Qed.

End endpoints_composed.

(** * Further properties of titles *)

Section titles.

Lemma list_of_app (a b : string) :
  String.list_ascii_of_string (a +:+ b)
  = String.list_ascii_of_string a ++ String.list_ascii_of_string b.
Proof.
  induction a as [|c a IH]; [done|]. rewrite str_app_cons. simpl. by rewrite IH.
Qed.

Lemma blank_isspace (c : ascii) (s : string) :
  ¬ Str.has_non_whitespace (String c s) →
  Str.isspace c = true ∧ ¬ Str.has_non_whitespace s.
Proof.
  rewrite has_non_whitespace_cons. intros H. split.
  - destruct (Str.isspace c); [done | destruct H; by left].
  - intros Hs. destruct H. by right.
Qed.

Lemma split_from_blank (s word : string) :
  ¬ Str.has_non_whitespace s →
  Str.split_from s word = if Str.is_empty word then [] else [word].
Proof.
  revert word. induction s as [|c s IH]; intros word Hblank; [done|].
  apply blank_isspace in Hblank as [Hc Hs]. simpl. rewrite Hc.
  rewrite (IH EmptyString Hs). by destruct (Str.is_empty word).
Qed.

Lemma split_from_word (word rest acc : string) :
  Forall (λ c, Str.isspace c = false) (String.list_ascii_of_string word) →
  Str.split_from (word +:+ rest) acc = Str.split_from rest (acc +:+ word).
Proof.
  revert acc. induction word as [|c word IH]; intros acc Hword.
  - by rewrite str_app_empty_l, str_app_empty_r.
  - simpl in Hword. apply Forall_cons in Hword as [Hc Hword].
    rewrite str_app_cons. simpl. rewrite Hc, (IH _ Hword), str_app_assoc.
    by rewrite str_app_cons, str_app_empty_l.
Qed.

(** Splitting what [join] made of words gives the words back. *)
Lemma split_join (words : list string) :
  Forall is_word words → Str.split (Str.join " " words) = words.
Proof.
  unfold Str.split, Str.join.
  induction 1 as [|x words [Hne Hx] Hwords IH]; [done|].
  destruct words as [|y words].
  - simpl. rewrite <- (str_app_empty_r x) at 1.
    rewrite (split_from_word x EmptyString EmptyString Hx), str_app_empty_l.
    simpl. by destruct x.
  - change (String.concat " " (x :: y :: words))
      with (x +:+ String " " (String.concat " " (y :: words))).
    rewrite (split_from_word x _ EmptyString Hx), str_app_empty_l.
    simpl Str.split_from at 1.
    change (Str.isspace " ") with true. cbv iota.
    destruct x as [|c x]; [done|]. simpl Str.is_empty. cbv iota.
    f_equal. exact IH.
Qed.

Lemma split_from_words (s word : string) :
  word = EmptyString ∨ is_word word → Forall is_word (Str.split_from s word).
Proof.
  revert word. induction s as [|c s IH]; intros word Hword; simpl.
  - destruct word; [constructor|].
    destruct Hword as [?|Hword]; [done|]. constructor; [done | constructor].
  - destruct (Str.isspace c) eqn:Hc.
    + destruct word as [|d word]; simpl.
      * apply IH. by left.
      * destruct Hword as [?|Hword]; [done|].
        constructor; [done|]. apply IH. by left.
    + apply IH. right. split.
      * by destruct word.
      * rewrite list_of_app. apply Forall_app. split.
        -- destruct Hword as [->|[_ Hword]]; [constructor | done].
        -- simpl. constructor; [done | constructor].
Qed.

Lemma split_words (s : string) : Forall is_word (Str.split s).
Proof. apply split_from_words. by left. Qed.

(** What a chat call that passes validation leaves as the title of its
    session. *)
Lemma title_after_chat (w : World) (request : ChatRequest.t) (env : Env)
    (session : Session.t) (model : GenerativeModel) :
  sessions (STATE w) !! ChatRequest.session_id request = Some session →
  gemini_client (STATE w) = Some model →
  ∃ session',
    sessions (STATE (chat_stream w request env).2) !! ChatRequest.session_id request
    = Some session'
    ∧ Session.title session'
      = (if decide (Session.title session = "New Chat")
         then derived_title (ChatRequest.message request)
         else Session.title session)
    ∧ gemini_client (STATE (chat_stream w request env).2) = Some model.
Proof.
  intros Hs Hm.
  destruct (chat_stream_cases w request env)
    as [(rejection & Hprep & _) | (session' & model' & w' & _ & _ & Hprep & ->)].
  { by rewrite (prepare_ok w request env session model) in Hprep. }
  simpl. rewrite finally_block_state.
  rewrite (prepare_ok w request env session model) in Hprep by done.
  injection Hprep as <-.
  destruct (decide (Session.title session = "New Chat")); simpl.
  - eexists. by rewrite lookup_insert_eq.
  - by exists session.
Qed.

(** X15.  The first message names the chat.  After two chat calls on a
    session titled [New Chat], the title is the one derived from the first
    message, unless that title is itself [New Chat], in which case it is
    the one derived from the second message. *)
Theorem first_message_names_the_chat
    (w : World) (r1 r2 : ChatRequest.t) (e1 e2 : Env)
    (session : Session.t) (model : GenerativeModel) :
  ChatRequest.session_id r2 = ChatRequest.session_id r1 →
  sessions (STATE w) !! ChatRequest.session_id r1 = Some session →
  Session.title session = "New Chat" →
  gemini_client (STATE w) = Some model →
  Session.title
    <$> sessions (STATE (chat_stream (chat_stream w r1 e1).2 r2 e2).2)
          !! ChatRequest.session_id r1
  = Some (if decide (derived_title (ChatRequest.message r1) = "New Chat")
          then derived_title (ChatRequest.message r2)
          else derived_title (ChatRequest.message r1)).
Proof.
  intros Hsid Hs Htitle Hm.
  destruct (title_after_chat w r1 e1 session model Hs Hm) as (s1 & Hs1 & Ht1 & Hm1).
  rewrite decide_True in Ht1 by done.
  rewrite <- Hsid in Hs1.
  destruct (title_after_chat _ r2 e2 s1 model Hs1 Hm1) as (s2 & Hs2 & Ht2 & _).
  rewrite Hsid in Hs2. rewrite Hs2. simpl. rewrite Ht2, Ht1.
  by destruct (decide _).
Qed.

Lemma first_message_names_the_chat_witness :
  Session.title
    <$> sessions
          (STATE (chat_stream (chat_stream story_world story_request connected).2
                    hello_request connected).2) !! "s1"
  = Some "Tell me a long story".
Proof.
  apply (first_message_names_the_chat story_world story_request hello_request
           connected connected new_chat story_model); reflexivity.
Defined.

(** X16.  A message made of whitespace only, sent to a session titled
    [New Chat], leaves the session with the empty title. *)
Theorem blank_message_empties_title
    (w : World) (request : ChatRequest.t) (env : Env)
    (session : Session.t) (model : GenerativeModel) :
  ¬ Str.has_non_whitespace (ChatRequest.message request) →
  sessions (STATE w) !! ChatRequest.session_id request = Some session →
  Session.title session = "New Chat" →
  gemini_client (STATE w) = Some model →
  derived_title (ChatRequest.message request) = EmptyString
  ∧ Session.title
      <$> sessions (STATE (chat_stream w request env).2) !! ChatRequest.session_id request
    = Some EmptyString.
Proof.
  intros Hblank Hs Htitle Hm.
  assert (derived_title (ChatRequest.message request) = EmptyString) as Hd.
  { unfold derived_title, Str.split. by rewrite split_from_blank. }
  split; [done|].
  destruct (title_after_chat w request env session model Hs Hm) as (s' & -> & Ht & _).
  rewrite decide_True in Ht by done. simpl. by rewrite Ht, Hd.
Qed.

Lemma blank_message_empties_title_witness :
  Session.title
    <$> sessions (STATE (chat_stream story_world blank_request connected).2) !! "s1"
  = Some EmptyString.
Proof.
  apply (blank_message_empties_title story_world blank_request connected
           new_chat story_model); try reflexivity.
  intros (c & Hc & Hsp). simpl in Hc.
  apply elem_of_cons in Hc as [->|Hc]; [discriminate Hsp|].
  apply elem_of_cons in Hc as [->|Hc]; [discriminate Hsp|].
  by apply elem_of_nil in Hc.
Defined.

(** X17.  The words of a message are non-empty and free of whitespace;
    the derived title splits back into the first five of them, so it has
    at most five words, and deriving a title from a derived title gives
    the same title. *)
Theorem derived_title_words (message : string) :
  Forall is_word (Str.split message)
  ∧ Str.split (derived_title message) = take 5 (Str.split message)
  ∧ length (Str.split (derived_title message)) ≤ 5
  ∧ derived_title (derived_title message) = derived_title message.
Proof.
  assert (Str.split (derived_title message) = take 5 (Str.split message)) as Hsplit.
  { apply split_join, Forall_take, split_words. }
  split_and!.
  - apply split_words.
  - done.
  - rewrite Hsplit, length_take. lia.
  - unfold derived_title at 1. rewrite Hsplit, take_take. done.
Qed.

End titles.

(** * Further properties of the driver and the generator *)

Section streaming.

Lemma filter_truthy_nonempty (texts : list string) :
  Forall (λ f, f ≠ EmptyString) (List.filter (λ text, truthy (VStr text)) texts).
Proof.
  induction texts as [|t texts IH]; simpl; [constructor|].
  destruct t; simpl; [done|]. by constructor.
Qed.

Lemma filter_truthy_sublist (texts : list string) :
  List.filter (λ text, truthy (VStr text)) texts `sublist_of` texts.
Proof.
  induction texts as [|t texts IH]; simpl; [constructor|].
  destruct t; simpl; [by apply sublist_cons | by apply sublist_skip].
Qed.

Lemma yields_nonempty (model : option GenerativeModel) (text : string)
    (history : list RawMessage) :
  Forall (λ f, f ≠ EmptyString) (yields (stream_chat_response model text history)).
Proof.
  unfold stream_chat_response.
  destruct (format_history history); [|constructor].
  destruct model; [apply filter_truthy_nonempty | constructor].
Qed.

Lemma data_of_fragments (fragments : list string) :
  data <$> (fragment_event <$> fragments) = fragments.
Proof. induction fragments as [|f fragments IH]; [done|]. simpl. by f_equal. Qed.

(** The loop relays a prefix of the stream; it is left by an exception
    only when the stream raises it after all its fragments. *)
Lemma async_for_shape (is_disconnected : nat → bool)
    (yields : list string) (raises : option exn) :
  ∀ poll acc events text exit,
    async_for is_disconnected poll yields raises acc = (events, text, exit) →
    (∃ k, events = fragment_event <$> take k yields)
    ∧ (∀ e, exit = Raised e → raises = Some e ∧ events = fragment_event <$> yields).
Proof.
  induction yields as [|chunk rest IH]; intros poll acc events text exit; simpl.
  - intros [= <- <- <-]. split; [by exists 0|].
    intros e He. by destruct raises as [e'|]; simplify_eq.
  - destruct (is_disconnected poll).
    + intros [= <- <- <-]. split; [by exists 0 | done].
    + destruct (async_for _ _ _ _ _) as [[evs txt] ex] eqn:Hrec.
      intros [= <- <- <-]. destruct (IH _ _ _ _ _ Hrec) as ([k ->] & Hraised).
      split; [by exists (S k)|].
      intros e He. destruct (Hraised e He) as [-> Hall]. split; [done|].
      simpl. by rewrite Hall.
Qed.

Lemma filter_truthy_exact (texts : list string) :
  List.filter (λ text, truthy (VStr text)) texts
  = filter (λ f, f ≠ EmptyString) texts.
Proof.
  induction texts as [|t texts IH]; [done|].
  rewrite filter_cons. destruct t as [|c t]; simpl.
  - exact IH.
  - f_equal. exact IH.
Qed.

Lemma filter_truthy_text (texts : list string) :
  concat_text (List.filter (λ text, truthy (VStr text)) texts) = concat_text texts.
Proof.
  induction texts as [|t texts IH]; [done|].
  destruct t as [|c t]; simpl; [exact IH|]. f_equal. exact IH.
Qed.

(** X18.  The driver never yields an empty fragment.  With a model handle
    and a history that normalises, what it yields is exactly the list of
    the provider's chunk texts with the empty ones removed: same order,
    same repetitions, and the same text once concatenated; it ends as the
    provider's stream ends.  Without a handle it yields nothing and
    raises. *)
Theorem driver_skips_empty_chunks (model : option GenerativeModel)
    (new_message_text : string) (chat_history_objects : list RawMessage) :
  let stream := stream_chat_response model new_message_text chat_history_objects in
  Forall (λ f, f ≠ EmptyString) (yields stream)
  ∧ (∀ handle formatted,
       model = Some handle →
       format_history chat_history_objects = Ok formatted →
       yields stream `sublist_of` chunks (handle formatted new_message_text)
       ∧ (∀ f, f ∈ chunks (handle formatted new_message_text) → f ≠ EmptyString →
               f ∈ yields stream)
       ∧ raises stream = failure (handle formatted new_message_text)
       ∧ yields stream
         = filter (λ f, f ≠ EmptyString) (chunks (handle formatted new_message_text))
       ∧ concat_text (yields stream)
         = concat_text (chunks (handle formatted new_message_text))
       ∧ (Forall (λ f, f ≠ EmptyString) (chunks (handle formatted new_message_text)) →
          yields stream = chunks (handle formatted new_message_text)))
  ∧ (model = None → yields stream = [] ∧ is_Some (raises stream)).
Proof.
  simpl. split_and!.
  - apply yields_nonempty.
  - intros handle formatted -> Hf. unfold stream_chat_response. rewrite Hf. simpl.
    split_and!; [apply filter_truthy_sublist | | done | apply filter_truthy_exact
                 | apply filter_truthy_text |].
    + intros f Hin Hne. apply list_elem_of_In, filter_In. split.
      * by apply list_elem_of_In.
      * by destruct f.
    + intros Hall. rewrite filter_truthy_exact.
      induction Hall as [|t texts Ht _ IH]; [done|].
      rewrite filter_cons, decide_True by done. by f_equal.
  - intros ->. unfold stream_chat_response.
    destruct (format_history chat_history_objects); simpl; eauto.
Qed.

Lemma consume_fragment_step (n : nat) (w : World) (request : ChatRequest.t) (env : Env)
    (poll : nat) (chunk : string) (rest : list string) (raises : option exn)
    (text : string) :
  is_disconnected env poll = false →
  consume (S n) w request env (AtFragment poll (chunk :: rest) raises text)
  = (let '(events, s, w') :=
       consume n w request env (AtFragment (S poll) rest raises (text +:+ chunk)) in
     (fragment_event chunk :: events, s, w')).
Proof. intros Hpoll. simpl. by rewrite Hpoll. Qed.

(** The generator taken step by step from the [yield] of a fragment,
    against the loop run as a whole. *)
Lemma consume_loop (w : World) (request : ChatRequest.t) (env : Env)
    (raises : option exn) :
  ∀ ys poll text events text' exit,
    async_for (is_disconnected env) poll ys raises text = (events, text', exit) →
    (∀ n, n ≤ length events →
       ∃ poll' rest,
         consume n w request env (AtFragment poll ys raises text)
         = (take n events,
            AtFragment poll' rest raises (text +:+ concat_text (data <$> take n events)),
            w))
    ∧ consume (S (length events)) w request env (AtFragment poll ys raises text)
      = (events ++ [closing_event exit], AtClosing text', w)
    ∧ (∀ m, consume (S (S (length events)) + m) w request env
              (AtFragment poll ys raises text)
            = (events ++ [closing_event exit], Finished,
               finally_block w request env text')).
Proof.
  induction ys as [|chunk rest IH]; intros poll text events text' exit Hloop.
  - simpl in Hloop. injection Hloop as <- <- <-. split_and!.
    + intros n Hn. assert (n = 0) as -> by (simpl in Hn; lia).
      exists poll, []. simpl. by rewrite str_app_empty_r.
    + by destruct raises.
    + intros m. by destruct raises.
  - simpl in Hloop. destruct (is_disconnected env poll) eqn:Hpoll.
    + injection Hloop as <- <- <-. split_and!.
      * intros n Hn. assert (n = 0) as -> by (simpl in Hn; lia).
        exists poll, (chunk :: rest). simpl. by rewrite str_app_empty_r.
      * simpl. by rewrite Hpoll.
      * intros m. simpl. by rewrite Hpoll.
    + destruct (async_for _ _ _ _ _) as [[evs txt] ex] eqn:Hrec.
      injection Hloop as <- <- <-.
      destruct (IH _ _ _ _ _ Hrec) as (Hpart & Hall & Hend).
      change (length (fragment_event chunk :: evs)) with (S (length evs)).
      split_and!.
      * intros [|n] Hn.
        { exists poll, (chunk :: rest). simpl. by rewrite str_app_empty_r. }
        destruct (Hpart n ltac:(lia)) as (poll' & rest' & Hn').
        exists poll', rest'. rewrite consume_fragment_step, Hn' by done.
        simpl. by rewrite str_app_assoc.
      * by rewrite consume_fragment_step, Hall.
      * intros m. change (S (S (S (length evs))) + m) with (S (S (S (length evs)) + m)).
        by rewrite consume_fragment_step, Hend.
Qed.

Lemma finally_block_empty (w : World) (request : ChatRequest.t) (env : Env) :
  finally_block w request env EmptyString = w.
Proof. reflexivity. Qed.

(** Runs closed by the consumer, against the run consumed to the end. *)
Lemma closed_run_cases (w : World) (request : ChatRequest.t) (env : Env) :
  let events := (try_block w request env).1.1 in
  (∀ n, n ≤ length events →
     closed_run n w request env
     = (take n events,
        finally_block w request env (concat_text (data <$> take n events))))
  ∧ closed_run (S (length events)) w request env = event_generator w request env
  ∧ (∀ m, consume (S (S (length events)) + m) w request env NotStarted
          = ((event_generator w request env).1, Finished,
             (event_generator w request env).2))
  ∧ (∀ m, closed_run (S (S (length events)) + m) w request env
          = event_generator w request env).
Proof.
  rewrite event_generator_eq.
  destruct (try_block w request env) as [[events text] exit] eqn:Htry. cbn [fst snd].
  unfold try_block in Htry.
  destruct (consume_loop w request env _ _ _ _ _ _ _ Htry) as (Hpart & Hall & Hend).
  assert (∀ n, consume (S n) w request env NotStarted
               = consume (S n) w request env
                   (AtFragment 0 (yields (driver_stream w request))
                      (raises (driver_stream w request)) EmptyString)) as Hstart.
  { done. }
  split_and!.
  - intros [|n] Hn; [done|]. unfold closed_run. rewrite Hstart.
    destruct (Hpart (S n) Hn) as (poll' & rest' & ->). simpl.
    by rewrite str_app_empty_l.
  - unfold closed_run. by rewrite Hstart, Hall.
  - intros m. change (S (S (length events)) + m) with (S (S (length events) + m)).
    rewrite Hstart. apply (Hend m).
  - intros m. unfold closed_run.
    change (S (S (length events)) + m) with (S (S (length events) + m)).
    rewrite Hstart. change (S (S (length events) + m)) with (S (S (length events)) + m).
    by rewrite (Hend m).
Qed.

(** What a closed run emits is the beginning of what the full run
    emits. *)
Lemma closed_run_prefix (n : nat) (w : World) (request : ChatRequest.t) (env : Env) :
  (closed_run n w request env).1 `prefix_of` (event_generator w request env).1.
Proof.
  destruct (closed_run_cases w request env) as (Hpart & Hall & _ & Hend).
  destruct (decide (n ≤ length (try_block w request env).1.1)) as [Hn|Hn].
  - rewrite (Hpart n Hn), event_generator_eq. simpl.
    apply prefix_app_r, prefix_take.
  - destruct (decide (n = S (length (try_block w request env).1.1))) as [->|Hne].
    + by rewrite Hall.
    + replace n with (S (S (length (try_block w request env).1.1))
                      + (n - S (S (length (try_block w request env).1.1)))) by lia.
      by rewrite Hend.
Qed.

(** X19.  A run of the generator that is consumed to its end emits
    fragment events followed by exactly one terminal event, which comes
    last: [end], or [error] for an exception the driver raised after all
    its fragments had been relayed.  The fragments are a prefix of what the
    driver yields, none of them empty.  A run that the consumer closes
    after [n] of these fragments emits those [n] fragment events and no
    terminal event, and its [finally] block still runs on their text;
    closing at the terminal event changes nothing. *)
Theorem one_terminal_event_last (w : World) (request : ChatRequest.t) (env : Env) :
  ∃ fragments closing,
    (event_generator w request env).1 = (fragment_event <$> fragments) ++ [closing]
    ∧ fragments `prefix_of` yields (driver_stream w request)
    ∧ Forall (λ f, f ≠ EmptyString) fragments
    ∧ List.filter is_terminal (event_generator w request env).1 = [closing]
    ∧ last (event_generator w request env).1 = Some closing
    ∧ (closing = end_event
       ∨ ∃ e, raises (driver_stream w request) = Some e
              ∧ closing = error_event e
              ∧ fragments = yields (driver_stream w request))
    ∧ (event_generator w request env).1
      = ((λ f, {| event := None; data := f |}) <$> fragments) ++ [closing]
    ∧ (closing = {| event := Some "end"; data := "Stream finished" |}
       ∨ ∃ e, closing = {| event := Some "error"; data := exn_str e |})
    ∧ List.filter (λ ev, bool_decide (event ev = Some "end" ∨ event ev = Some "error"))
        (event_generator w request env).1
      = [closing]
    ∧ (∀ m, consume (length fragments + 2 + m) w request env NotStarted
            = ((event_generator w request env).1, Finished,
               (event_generator w request env).2))
    ∧ (∀ n, n ≤ length fragments →
         closed_run n w request env
         = ((λ f, {| event := None; data := f |}) <$> take n fragments,
            finally_block w request env (concat_text (take n fragments))))
    ∧ closed_run (S (length fragments)) w request env = event_generator w request env.
Proof.
  destruct (closed_run_cases w request env) as (Hpart & Hall & Hend & _).
  revert Hpart Hall Hend. rewrite event_generator_eq. simpl.
  destruct (try_block w request env) as [[events text] exit] eqn:Htry. simpl.
  unfold try_block in Htry.
  apply async_for_shape in Htry as ([k ->] & Hraised).
  set (fragments := take k (yields (driver_stream w request))).
  rewrite length_fmap. intros Hpart Hall Hend.
  exists fragments, (closing_event exit).
  assert (closing_event exit = {| event := Some "end"; data := "Stream finished" |}
          ∨ ∃ e, closing_event exit = {| event := Some "error"; data := exn_str e |})
    as Hclosing.
  { destruct exit as [| |e]; [by left | by left | right; by exists e]. }
  split_and!.
  - done.
  - apply prefix_take.
  - apply Forall_take, yields_nonempty.
  - apply terminal_after_fragments, closing_not_fragment.
  - apply last_snoc.
  - destruct exit as [| |e]; [by left | by left | right].
    destruct (Hraised e eq_refl) as [Hr Hsame]. exists e. split_and!; [done..|].
    apply (f_equal (fmap data)) in Hsame. by rewrite !data_of_fragments in Hsame.
  - done.
  - done.
  - apply one_named_terminal.
    destruct Hclosing as [-> | [e ->]]; [by left | by right].
  - intros m. replace (length fragments + 2 + m) with (S (S (length fragments)) + m) by lia.
    apply Hend.
  - intros n Hn. rewrite (Hpart n Hn). f_equal.
    + by rewrite <- fmap_take.
    + by rewrite <- fmap_take, data_of_fragments.
  - done.
Qed.

(** X20.  With a model handle in place, the stored history always
    normalises, so the only exception the generator can report is the
    provider's own failure on that history and message.  When the provider
    does not fail, no run emits an [error] event, however early the
    consumer closes it, and the run consumed to its end finishes with the
    [end] event. *)
Theorem error_only_from_provider
    (w : World) (request : ChatRequest.t) (env : Env) (model : GenerativeModel) :
  gemini_client (STATE w) = Some model →
  let response :=
    model (omap turn_of_message (current_history w request))
          (ChatRequest.message request) in
  (∀ e, (try_block w request env).2 = Raised e → failure response = Some e)
  ∧ (failure response = None →
     last (event_generator w request env).1
     = Some {| event := Some "end"; data := "Stream finished" |}
     ∧ ∀ n, Forall (λ ev, event ev ≠ Some "error") (closed_run n w request env).1).
Proof.
  intros Hm response.
  assert (raises (driver_stream w request) = failure response) as Hraises.
  { by rewrite (driver_stream_some w request model Hm). }
  assert (∀ e, (try_block w request env).2 = Raised e → failure response = Some e)
    as Hraised.
  { intros e He. destruct (try_block w request env) as [[events text] exit] eqn:Htry.
    unfold try_block in Htry. apply async_for_shape in Htry as (_ & H).
    simpl in He. destruct (H e He) as [Hr _]. by rewrite <- Hraises. }
  split; [done|].
  intros Hnone.
  assert (closing_event (try_block w request env).2 = end_event) as Hclosing.
  { destruct (try_block w request env).2 as [| |e] eqn:Hexit; [done..|].
    specialize (Hraised e eq_refl). congruence. }
  split.
  - rewrite event_generator_eq. simpl. by rewrite last_snoc, Hclosing.
  - intros n. destruct (closed_run_prefix n w request env) as [later Hlater].
    assert (Forall (λ ev, event ev ≠ Some "error") (event_generator w request env).1)
      as Hfull.
    { rewrite event_generator_eq. simpl. rewrite Hclosing.
      destruct (try_block w request env) as [[events text] exit] eqn:Htry.
      unfold try_block in Htry. apply async_for_relayed in Htry as (_ & Hfrag & _).
      simpl. apply Forall_app. split; [|by repeat constructor].
      eapply Forall_impl; [exact Hfrag|]. intros ev [Hev _].
      unfold is_fragment in Hev. by destruct (event ev). }
    rewrite Hlater in Hfull. by apply Forall_app in Hfull as [? _].
Qed.

Lemma error_only_from_provider_witness :
  last (event_generator five_world hello_request (disconnected_at 2)).1
  = Some {| event := Some "end"; data := "Stream finished" |}
  ∧ Forall (λ ev, event ev ≠ Some "error")
      (closed_run 1 five_world hello_request (disconnected_at 2)).1.
Proof.
  destruct (error_only_from_provider five_world hello_request (disconnected_at 2)
              (scripted ["a"; "b"; "c"; "d"; "e"] None) eq_refl) as [_ H].
  destruct (H eq_refl) as [Hlast Hclosed]. split; [exact Hlast | exact (Hclosed 1)].
Defined.

(** X21.  One record that raises aborts the normalisation of the whole
    history with that exception, whatever comes before or after it, and
    the driver then raises it without asking the provider for anything. *)
Theorem bad_record_aborts
    (before after : list RawMessage) (bad : RawMessage) (e : exn)
    (model : option GenerativeModel) (text : string) :
  Forall described before →
  format_message bad = Raise e →
  format_history (before ++ bad :: after) = Raise e
  ∧ stream_chat_response model text (before ++ bad :: after)
    = {| yields := []; raises := Some e |}.
Proof.
  intros [ts Hts]%format_history_described Hbad.
  assert (format_history (before ++ bad :: after) = Raise e) as H.
  { by rewrite format_history_app, Hts, format_history_cons, Hbad. }
  split; [done|]. unfold stream_chat_response. by rewrite H.
Qed.

Lemma bad_record_aborts_witness :
  stream_chat_response (Some echo) "hi" (example_mappings ++ text_only_object :: example_objects)
  = {| yields := []; raises := Some (AttributeError "Note" "role") |}.
Proof.
  apply (bad_record_aborts example_mappings example_objects text_only_object
           (AttributeError "Note" "role") (Some echo) "hi").
  - repeat apply List.Forall_cons; try apply List.Forall_nil; exact I.
  - reflexivity.
Defined.

(** X22.  Without an API key, or with an empty one, [init_model] gives no
    handle, and after startup every chat call is refused and leaves the
    world as it was: with 503 for a session the process knows, with 404
    otherwise.  With a key that is not empty the handle is the
    provider's. *)
Theorem no_api_key_no_chat
    (d : Disk) (api_key : option string) (provider : GenerativeModel) (now : Z)
    (request : ChatRequest.t) (env : Env) :
  let w := lifespan d (init_model api_key provider) now in
  (api_key = None ∨ api_key = Some EmptyString →
   ∃ rejection,
     chat_stream w request env = (inl rejection, w)
     ∧ status_code rejection
       = (if decide (is_Some (sessions (STATE w) !! ChatRequest.session_id request))
          then 503 else 404)%Z)
  ∧ (∀ key, api_key = Some key → key ≠ EmptyString →
       gemini_client (STATE w) = Some provider).
Proof.
  intros w.
  assert (gemini_client (STATE w) = init_model api_key provider) as Hclient.
  { unfold w, lifespan. by destruct (decide _). }
  split.
  - intros Hkey.
    assert (gemini_client (STATE w) = None) as Hnone.
    { rewrite Hclient. by destruct Hkey as [-> | ->]. }
    unfold chat_stream, chat_stream_prepare.
    destruct (sessions (STATE w) !! ChatRequest.session_id request) as [session|].
    + rewrite Hnone. eexists. by split.
    + eexists. by split.
  - intros key -> Hne. rewrite Hclient. by destruct key.
Qed.

(** X23.  A history read from the store always normalises: every stored
    message with a non-empty text gives one turn holding that text
    unchanged, with the role [model] when the message's role is [model]
    and [user] otherwise; messages with an empty text are left out, and
    the order is kept. *)
Theorem stored_history_normalises (messages : list Message.t) :
  ∃ turns,
    format_history (message_object <$> messages) = Ok turns
    ∧ Turn.parts <$> turns
      = (λ m, [Message.text m])
          <$> filter (λ m, Message.text m ≠ EmptyString) messages
    ∧ Turn.role <$> turns
      = (λ m, if decide (Message.role m = "model") then "model" else "user")
          <$> filter (λ m, Message.text m ≠ EmptyString) messages.
Proof.
  exists (omap turn_of_message messages).
  split; [apply format_history_objects|].
  induction messages as [|[sid r t ts] messages [IHp IHr]]; [done|].
  rewrite !filter_cons. simpl (Message.text _). simpl (Message.role _).
  destruct t as [|c t].
  - rewrite !decide_False by (by intros []). split; [exact IHp | exact IHr].
  - rewrite !decide_True by done. split.
    + exact (f_equal (cons [String c t]) IHp).
    + assert ((if String.eqb r "model" then "model" else "user")
              = (if decide (r = "model") then "model" else "user")) as Hrole.
      { destruct (String.eqb_spec r "model");
          [by rewrite decide_True | by rewrite decide_False]. }
      exact (f_equal2 cons Hrole IHr).
Qed.

(** X24.  When the provider does not fail and the caller stays
    connected, the caller receives every non-empty chunk of the provider
    as one fragment event, in order, then the [end] event, and the
    [finally] block runs on the concatenation of those chunks. *)
Theorem complete_stream_delivered
    (w : World) (request : ChatRequest.t) (env : Env) (model : GenerativeModel) :
  gemini_client (STATE w) = Some model →
  let response :=
    model (omap turn_of_message (current_history w request))
          (ChatRequest.message request) in
  let fragments := List.filter (λ text, truthy (VStr text)) (chunks response) in
  failure response = None →
  (∀ j, is_disconnected env j = false) →
  event_generator w request env
  = ((fragment_event <$> fragments) ++ [end_event],
     finally_block w request env (concat_text fragments)).
Proof.
  intros Hm response fragments Hok Hconn.
  rewrite event_generator_eq. unfold try_block.
  rewrite (driver_stream_some w request model Hm). simpl.
  fold response. fold fragments.
  rewrite (async_for_through _ fragments _ 0 EmptyString) by (intros; apply Hconn).
  simpl. by rewrite Hok.
Qed.

Lemma complete_stream_delivered_witness :
  event_generator story_world story_request connected
  = ([fragment_event "Once"; fragment_event " upon a time"; end_event],
     finally_block story_world story_request connected "Once upon a time").
Proof.
  apply (complete_stream_delivered story_world story_request connected story_model);
    reflexivity.
Defined.

End streaming.

(** ** Worked examples *)

Example split_example :
  Str.split "  Tell me	a long  story " = ["Tell"; "me"; "a"; "long"; "story"].
Proof. reflexivity. Qed.

Example derived_title_example :
  derived_title "Tell me a long story please now" = "Tell me a long story".
Proof. reflexivity. Qed.

Example strip_example : Str.strip " 	 ok  " = "ok".
Proof. reflexivity. Qed.

Example closed_after_one_fragment :
  closed_run 1 five_world hello_request connected
  = ([{| event := None; data := "a" |}],
     {| STATE := STATE five_world;
        disk := append_message_to_session (disk five_world)
                  (model_message hello_request connected "a") |}).
Proof. reflexivity. Qed.

Example drained_run :
  consume 7 five_world hello_request connected NotStarted
  = ((event_generator five_world hello_request connected).1, Finished,
     (event_generator five_world hello_request connected).2).
Proof. reflexivity. Qed.

Example repr_example :
  py_str (VList [VStr "it's"; VInt (-3); VNone])
  = "[" +:+ String Str.dquote "it's" +:+ String Str.dquote ", -3, None]".
Proof. reflexivity. Qed.
